(** * A shallow embedding of the Kimi knowledge cache and session manager

    The development follows [kimi_cache_man.py], [kimi_upload_file.py] and
    [kimi_session_man.py].  Python objects with mutable state become explicit
    state records threaded through a small state-and-outcome monad; the SQLite
    table [file_cache] is a finite map keyed by the primary key [file_hash];
    the clock ([time.time()]) is an explicit argument of every operation. *)

From Stdlib Require Import ZArith QArith.
From stdpp Require Import base gmap strings list.

(** * Outcomes of Python calls *)

Inductive exn :=
| FileNotFoundError   (* [open] on a path that is not there *)
| AttributeError      (* attribute lookup on an object that lacks it *)
| TypeError           (* bad call signature, or arithmetic on [None] *)
| ZeroDivisionError
| OverflowError       (* an [int] that does not fit an SQLite INTEGER *)
| ApiError.           (* the remote API client raised *)

Inductive outcome (A : Type) :=
| Ret (a : A)         (* the call returned [a] *)
| Raise (e : exn)     (* an exception reached the caller *)
| Blocked.            (* the thread waits for ever on a lock it cannot get *)
Arguments Ret {A} a.
Arguments Raise {A} e.
Arguments Blocked {A}.

Definition prog (St A : Type) : Type := St → outcome A * St.

Definition ret {St A} (a : A) : prog St A := λ st, (Ret a, st).
Definition raise {St A} (e : exn) : prog St A := λ st, (Raise e, st).
Definition bind {St A B} (m : prog St A) (k : A → prog St B) : prog St B :=
  λ st, match m st with
        | (Ret a, st') => k a st'
        | (Raise e, st') => (Raise e, st')
        | (Blocked, st') => (Blocked, st')
        end.
Definition gets {St A} (f : St → A) : prog St A := λ st, (Ret (f st), st).
Definition modify {St} (f : St → St) : prog St unit := λ st, (Ret tt, f st).
Definition lift_outcome {St A} (o : outcome A) : prog St A := λ st, (o, st).

Declare Scope prog_scope.
Delimit Scope prog_scope with prog.
Notation "x <- m ;; k" := (bind m (λ x, k))
  (at level 100, m at next level, right associativity) : prog_scope.
Notation "m ;;; k" := (bind m (λ _, k))
  (at level 100, right associativity) : prog_scope.
Open Scope prog_scope.

(** [x if x else None] and [if x:] on an [Optional[int]]: [None] and [0] are
    both false. *)
Definition truthy_int (o : option Z) : bool :=
  match o with
  | None => false
  | Some z => negb (z =? 0)%Z
  end.

(** [if s:] on an [Optional[str]]. *)
Definition truthy_str (o : option string) : bool :=
  match o with
  | None => false
  | Some s => negb (String.eqb s "")
  end.

(** * kimi_cache_man.py *)

Module KimiCacheMan.

(** The dataclass [CacheMessage]. *)
Record CacheMessage := {
  role : string;
  content : string;
  expired_time : option Z }.

#[export] Instance CacheMessage_eq_dec : EqDecision CacheMessage.
Proof. solve_decision. Defined.

(** [CacheMessage.is_expired], with [int(time.time())] passed as [now]. *)
Definition is_expired (now : Z) (m : CacheMessage) : bool :=
  match expired_time m with
  | None => false
  | Some e => (now >? e)%Z
  end.

(** A row of the table [file_cache], without its primary key [file_hash],
    which is the key of the map below.  The TEXT column [messages] holds the
    JSON array written by [_serialize_messages]; it is represented by the list
    that array encodes, [None] standing for NULL or the empty string. *)
Record Row := {
  file_path : string;
  messages : option (list CacheMessage);
  cache_tag : option string;
  cache_expired_time : option Z;
  cache_message : option string;
  create_time : Z;
  update_time : Z }.

(** The dictionary built by [get_cache_info] and [get_cache_by_tag]. *)
Record CacheInfo := {
  info_file_hash : string;
  info_file_path : string;
  info_messages : list CacheMessage;
  info_cache_tag : option string;
  info_cache_expired_time : option Z;
  info_cache_message : option string;
  info_create_time : Z;
  info_update_time : Z }.

(** What the two managers see of the outside world: the file system (the
    MD5 digest of the bytes at a path, [None] when there is no such file),
    the remote API (the text extracted from an uploaded file, [None] when the
    client raises; the status code answered by the caching endpoint), and the
    directory [save_dir] of the session manager (the exception with which
    [open(save_dir/<user_id>.json, 'w')] fails, [None] when the file can be
    written). *)
Record Env := {
  file_digest : string → option string;
  file_extract : string → option string;
  caching_status : Z;
  snapshot_error : string → option exn }.

(** The mutable part of a [KimiCacheMan] instance: the table behind
    [self.db_path] and [self.lock], a non-reentrant [threading.Lock]. *)
Record CacheMan := {
  db : gmap string Row;
  lock_held : bool }.

Definition set_db (f : gmap string Row → gmap string Row) (st : CacheMan) : CacheMan :=
  {| db := f (db st); lock_held := lock_held st |}.

(** [with self.lock: body].  Acquiring a [threading.Lock] that is already
    held blocks until it is released; here the only thread that could release
    it is the one that waits. *)
Definition with_lock {A} (body : prog CacheMan A) : prog CacheMan A :=
  λ st, if lock_held st then (Blocked, st)
        else match body {| db := db st; lock_held := true |} with
             | (Blocked, st') => (Blocked, st')
             | (r, st') => (r, {| db := db st'; lock_held := false |})
             end.

(** [with self._get_conn() as conn: body]: the connection commits when the
    block is left normally and rolls back when it is left by an exception. *)
Definition with_conn {A} (body : prog CacheMan A) : prog CacheMan A :=
  λ st, match body st with
        | (Raise e, st') => (Raise e, {| db := db st; lock_held := lock_held st' |})
        | r => r
        end.

Definition path_exists (env : Env) (path : string) : bool :=
  match file_digest env path with Some _ => true | None => false end.

Definition _calculate_file_hash (env : Env) (path : string) : prog CacheMan string :=
  match file_digest env path with
  | Some h => ret h
  | None => raise FileNotFoundError
  end.

Definition _serialize_messages (msgs : list CacheMessage) : option (list CacheMessage) :=
  Some msgs.

Definition _deserialize_messages (now : Z) (messages_json : option (list CacheMessage))
  : list CacheMessage :=
  match messages_json with
  | None => []
  | Some messages_data => filter (λ m, ¬ is_expired now m) messages_data
  end.

(** [cursor.fetchone()] of [SELECT ... WHERE file_hash = ?]. *)
Definition select_by_hash (file_hash : string) : prog CacheMan (option Row) :=
  gets (λ st, db st !! file_hash).

(** An [int] that [sqlite3] can bind to a parameter: SQLite stores an INTEGER
    in 64 bits, two's complement. *)
Definition fits_int64 (z : Z) : bool :=
  (- 2 ^ 63 <=? z)%Z && (z <? 2 ^ 63)%Z.

(** The same for an [Optional[int]]; [None] is bound as NULL. *)
Definition binds_int64 (o : option Z) : bool :=
  match o with
  | None => true
  | Some z => fits_int64 z
  end.

(** [INSERT OR REPLACE INTO file_cache ...].  [conn.execute] raises
    [OverflowError] before it runs the statement when the expiry time does
    not fit an INTEGER.  [current_time], which is bound twice as well, is a
    reading of the clock and fits. *)
Definition insert_cache (now : Z) (file_hash file_path : string)
    (messages_json : option (list CacheMessage)) (cache_tag : option string)
    (expired_time : option Z) (cache_message : option string) : prog CacheMan unit :=
  let current_time := now in
  if binds_int64 expired_time then
    modify (set_db (insert file_hash
      {| file_path := file_path; messages := messages_json; cache_tag := cache_tag;
         cache_expired_time := expired_time; cache_message := cache_message;
         create_time := current_time; update_time := current_time |}))
  else raise OverflowError.

(** ** kimi_upload_file.py

    [upload_files(client, files, cache_tag)]: every file is uploaded and its
    extracted text becomes one system message; a call of the client that
    raises ends the whole call.  With a tag the messages are registered with
    the remote caching endpoint and a single marker message is returned. *)
Fixpoint upload_each (env : Env) (files : list string) : outcome (list CacheMessage) :=
  match files with
  | [] => Ret []
  | file :: rest =>
    match file_extract env file with
    | None => Raise ApiError
    | Some file_content =>
      match upload_each env rest with
      | Ret messages =>
        Ret ({| role := "system"; content := file_content; expired_time := None |}
             :: messages)
      | r => r
      end
    end
  end.

(** The loop of the source appends to [messages]; [upload_each] builds the
    same list front to back. *)
Definition upload_files (env : Env) (now : Z) (files : list string)
    (cache_tag : option string) : outcome (list CacheMessage) :=
  match upload_each env files with
  | Ret messages =>
    if truthy_str cache_tag then
      if negb (caching_status env =? 200)%Z then Raise ApiError
      else Ret [ {| role := "cache";
                    content := "tag=" +:+ default "" cache_tag +:+ ";reset_ttl=300";
                    expired_time := Some (now + 300)%Z |} ]
    else Ret messages
  | r => r
  end.

(** ** The operations of [KimiCacheMan] *)

(** What [get_cache] hands back: [None], a list of messages, or the error
    text of a failed upload. *)
Inductive get_result :=
| GNone
| GMessages (msgs : list CacheMessage)
| GError (text : string).

Definition upload_failed_text : string := "上传知识库文件失败".

(** [row[1] and current_time > row[1]], and the same test on [row[4]]. *)
Definition past_expiry (now : Z) (t : option Z) : bool :=
  truthy_int t && (now >? default 0%Z t)%Z.

(** Modelled from the spec: [DotDict] (module [plugin_comm.dot_dict], which is
    not among the sources) wraps the dictionary [msg] for attribute access.
    The specification has [get] store and return the ingested messages as
    they come, so the wrapped message keeps the three fields of [msg]. *)
Definition DotDict (msg : CacheMessage) : CacheMessage := msg.

Definition get_cache (env : Env) (now : Z) (file_path : string)
  : prog CacheMan get_result :=
  if negb (path_exists env file_path) then ret GNone
  else
    file_hash <- _calculate_file_hash env file_path ;;
    with_lock (with_conn (
      row <- select_by_hash file_hash ;;
      match row with
      | Some r =>
        let current_time := now in
        (* an expired record is only logged *)
        (if past_expiry current_time (cache_expired_time r) then ret tt else ret tt) ;;;
        ret (GMessages (_deserialize_messages now (messages r)))
      | None =>
        messages <- lift_outcome (upload_files env now [file_path] None) ;;
        match messages with
        | [] => ret (GError upload_failed_text)
        | _ :: _ =>
          let msgs := DotDict <$> messages in
          insert_cache now file_hash file_path (_serialize_messages msgs) None None None ;;;
          ret (GMessages msgs)
        end
      end)).

Definition set_cache (env : Env) (now : Z) (file_path : string)
    (messages : list CacheMessage) (cache_tag : option string)
    (expire_seconds : option Z) (cache_message : option string) : prog CacheMan unit :=
  file_hash <- _calculate_file_hash env file_path ;;
  let current_time := now in
  let expired_time :=
    if truthy_int expire_seconds
    then Some (current_time + default 0%Z expire_seconds)%Z else None in
  let messages_json := _serialize_messages messages in
  with_lock (with_conn (
    insert_cache now file_hash file_path messages_json cache_tag expired_time cache_message)).

(** [UPDATE file_cache SET cache_expired_time = ?, update_time = ?] on one
    row. *)
Definition update_expiry (new_expired_time current_time : Z) (r : Row) : Row :=
  {| file_path := file_path r; messages := messages r; cache_tag := cache_tag r;
     cache_expired_time := Some new_expired_time;
     cache_message := cache_message r;
     create_time := create_time r; update_time := current_time |}.

Definition remove_cache (file_hash : string) : prog CacheMan unit :=
  with_lock (with_conn (modify (set_db (delete file_hash)))).

Definition refresh_cache (env : Env) (now : Z) (file_path : string) (extend_seconds : Z)
  : prog CacheMan bool :=
  file_hash <- _calculate_file_hash env file_path ;;
  let current_time := now in
  with_lock (with_conn (
    row <- select_by_hash file_hash ;;
    match row with
    | None => ret false
    | Some r =>
      let new_expired_time := (current_time + extend_seconds)%Z in
      (* the parameters of the UPDATE are bound as those of the INSERT are *)
      (if fits_int64 new_expired_time then
         modify (set_db (insert file_hash (update_expiry new_expired_time current_time r)))
       else raise OverflowError) ;;;
      ret true
    end)).

(** [DELETE ... WHERE cache_expired_time IS NOT NULL AND cache_expired_time < ?],
    answering [cursor.rowcount]. *)
Definition is_stale (now : Z) (r : Row) : Prop :=
  match cache_expired_time r with
  | Some t => (t < now)%Z
  | None => False
  end.

#[export] Instance is_stale_dec now r : Decision (is_stale now r).
Proof. unfold is_stale. destruct (cache_expired_time r); apply _. Defined.

Definition clear_expired_cache (now : Z) : prog CacheMan Z :=
  let current_time := now in
  with_lock (with_conn (
    stale <- gets (λ st, filter (λ kv, is_stale current_time kv.2) (db st)) ;;
    modify (set_db (filter (λ kv, ¬ is_stale current_time kv.2))) ;;;
    ret (Z.of_nat (size stale)))).

Definition row_info (now : Z) (file_hash : string) (r : Row) : CacheInfo :=
  {| info_file_hash := file_hash;
     info_file_path := file_path r;
     info_messages := _deserialize_messages now (messages r);
     info_cache_tag := cache_tag r;
     info_cache_expired_time := cache_expired_time r;
     info_cache_message := cache_message r;
     info_create_time := create_time r;
     info_update_time := update_time r |}.

(** [SELECT * FROM file_cache WHERE cache_tag = ?]; SQL leaves the order of
    the rows open, here it is the order of [map_to_list]. *)
Definition get_cache_by_tag (now : Z) (tag : string) : prog CacheMan (list CacheInfo) :=
  with_lock (with_conn (
    rows <- gets (λ st,
      filter (λ kv, cache_tag kv.2 = Some tag) (map_to_list (db st))) ;;
    ret ((λ kv, row_info now kv.1 kv.2) <$> rows))).

Definition get_cache_info (env : Env) (now : Z) (file_path : string)
  : prog CacheMan (option CacheInfo) :=
  if negb (path_exists env file_path) then ret None
  else
    file_hash <- _calculate_file_hash env file_path ;;
    with_lock (with_conn (
      row <- select_by_hash file_hash ;;
      match row with
      | None => ret None
      | Some r =>
        let current_time := now in
        if past_expiry current_time (cache_expired_time r) then
          remove_cache file_hash ;;;
          ret None
        else ret (Some (row_info now file_hash r))
      end)).

End KimiCacheMan.

(** * kimi_session_man.py *)

Module KimiSessionMan.

Import KimiCacheMan.

(** [int(x)] on a float: truncation towards zero. *)
Definition py_int (x : Q) : Z := Z.quot (Qnum x) (Zpos (Qden x)).

(** [x > y] on numbers. *)
Definition Qgtb (x y : Q) : bool := negb (Qle_bool x y).

(** [a / b] on two [int]s.  The quotient is kept as the exact rational; the
    nearest double that Python returns compares with [0.8] in the same way
    for all counters below [2^50]. *)
Definition py_truediv (a b : Z) : outcome Q :=
  if (b =? 0)%Z then Raise ZeroDivisionError
  else Ret (inject_Z a / inject_Z b)%Q.

(** A message of a session: a dictionary with the keys ['role'] and
    ['content'] and, when [Session.add_message] wrote it, ['timestamp']. *)
Record Message := {
  role : string;
  content : string;
  timestamp : option Q }.

(** The dataclass [Session]; the values of [context] are opaque.  A session
    object is shared between [self.sessions] and whoever [get_session] gave it
    to: an update of the object is an update of its entry in the table. *)
Record Session := {
  user_id : string;
  messages : list Message;
  cache_hit_count : Z;
  cache_miss_count : Z;
  last_active_time : Q;
  context : gmap string string }.

Definition set_messages (msgs : list Message) (s : Session) : Session :=
  {| user_id := user_id s; messages := msgs;
     cache_hit_count := cache_hit_count s; cache_miss_count := cache_miss_count s;
     last_active_time := last_active_time s; context := context s |}.

Definition bump_hit (s : Session) : Session :=
  {| user_id := user_id s; messages := messages s;
     cache_hit_count := (cache_hit_count s + 1)%Z;
     cache_miss_count := cache_miss_count s;
     last_active_time := last_active_time s; context := context s |}.

Definition bump_miss (s : Session) : Session :=
  {| user_id := user_id s; messages := messages s;
     cache_hit_count := cache_hit_count s;
     cache_miss_count := (cache_miss_count s + 1)%Z;
     last_active_time := last_active_time s; context := context s |}.

(** [Session.add_message]. *)
Definition session_add_message (now : Q) (r c : string) (s : Session) : Session :=
  {| user_id := user_id s;
     messages := messages s ++ [ {| role := r; content := c; timestamp := Some now |} ];
     cache_hit_count := cache_hit_count s; cache_miss_count := cache_miss_count s;
     last_active_time := now; context := context s |}.

(** [Session.get_cache_hit_rate]. *)
Definition get_cache_hit_rate (s : Session) : outcome Q :=
  let total := (cache_hit_count s + cache_miss_count s)%Z in
  if (total >? 0)%Z then py_truediv (cache_hit_count s) total else Ret 0%Q.

(** The read-only configuration of the manager. *)
Record Config := {
  knowledge_file : string;
  character_desc : string }.

(** The mutable part of a [KimiSessionMan]: the dictionary [self.sessions],
    the cache manager it owns, the snapshot files [<user_id>.json] under
    [self.save_dir], and [self._last_cleanup]. *)
Record SessionMan := {
  sessions : gmap string Session;
  cache_man : CacheMan;
  saved : gmap string Session;
  _last_cleanup : Q }.

Definition set_sessions (f : gmap string Session → gmap string Session)
    (st : SessionMan) : SessionMan :=
  {| sessions := f (sessions st); cache_man := cache_man st;
     saved := saved st; _last_cleanup := _last_cleanup st |}.

Definition set_saved (f : gmap string Session → gmap string Session)
    (st : SessionMan) : SessionMan :=
  {| sessions := sessions st; cache_man := cache_man st;
     saved := f (saved st); _last_cleanup := _last_cleanup st |}.

Definition set_last_cleanup (t : Q) (st : SessionMan) : SessionMan :=
  {| sessions := sessions st; cache_man := cache_man st;
     saved := saved st; _last_cleanup := t |}.

(** A call into [self.cache_man]. *)
Definition lift_cache {A} (m : prog CacheMan A) : prog SessionMan A :=
  λ st, let '(r, c) := m (cache_man st) in
        (r, {| sessions := sessions st; cache_man := c;
               saved := saved st; _last_cleanup := _last_cleanup st |}).

(** [_save_session]: the snapshot file of the user is rewritten.  [open]
    raises when [save_dir/<user_id>.json] cannot be opened for writing, as
    for a [user_id] with a path separator that names no directory; nothing is
    written then. *)
Definition _save_session (env : Env) (s : Session) : prog SessionMan unit :=
  match snapshot_error env (user_id s) with
  | None => modify (set_saved (insert (user_id s) s))
  | Some e => raise e
  end.

Definition is_system (m : Message) : Prop := role m = "system".

(** One round of the loop of [_deduplicate_messages]: [seen_contents] and
    [unique_messages] after looking at [msg]. *)
Definition dedup_step (acc : gset string * list Message) (msg : Message)
  : gset string * list Message :=
  let '(seen_contents, unique_messages) := acc in
  if decide (content msg ∈ seen_contents) then acc
  else ({[ content msg ]} ∪ seen_contents, unique_messages ++ [msg]).

Definition _deduplicate_messages (messages : list Message) : list Message * Z :=
  let system_messages := filter is_system messages in
  let other_messages := filter (λ m, ¬ is_system m) messages in
  let unique_messages := (foldl dedup_step (∅, []) (reverse other_messages)).2 in
  let unique_messages := reverse unique_messages in
  let duplicates_removed :=
    (Z.of_nat (length other_messages) - Z.of_nat (length unique_messages))%Z in
  (system_messages ++ unique_messages, duplicates_removed).

(** [l[-k:]] for [k > 0]. *)
Definition slice_last {A} (k : Z) (l : list A) : list A :=
  drop (length l - Z.to_nat k) l.

(** The body of the loop of [clear_expired_sessions] for a session that is
    not idle: the new message list and the number of messages it dropped. *)
Definition cleanup_messages (max_messages : Z) (messages : list Message)
  : list Message * Z :=
  let '(deduped_messages, duplicates_removed) := _deduplicate_messages messages in
  if (Z.of_nat (length deduped_messages) >? max_messages)%Z then
    let system_messages := filter is_system deduped_messages in
    let other_messages := filter (λ m, ¬ is_system m) deduped_messages in
    let keep_count := (max_messages - Z.of_nat (length system_messages))%Z in
    let kept_messages :=
      if (keep_count >? 0)%Z then slice_last keep_count other_messages else [] in
    let truncated_count :=
      (Z.of_nat (length deduped_messages)
       - (Z.of_nat (length system_messages) + Z.of_nat (length kept_messages)))%Z in
    (system_messages ++ kept_messages, (duplicates_removed + truncated_count)%Z)
  else (deduped_messages, duplicates_removed).

Definition is_idle (now : Q) (expire_seconds : Z) (s : Session) : bool :=
  Qgtb (now - last_active_time s) (inject_Z expire_seconds).

(** The variables of the loop over [self.sessions.items()]. *)
Record Sweep := {
  sw_state : SessionMan;
  expired_users : list string;
  total_cleaned_messages : Z }.

Definition set_sw_state (f : SessionMan → SessionMan) (acc : Sweep) : Sweep :=
  {| sw_state := f (sw_state acc);
     expired_users := expired_users acc;
     total_cleaned_messages := total_cleaned_messages acc |}.

(** A call of a method of the manager from inside the loop. *)
Definition lift_sweep {A} (m : prog SessionMan A) : prog Sweep A :=
  λ acc, let '(r, st) := m (sw_state acc) in (r, set_sw_state (λ _, st) acc).

(** The body of the loop.  The session object is updated before its
    snapshot is written, so an exception of [_save_session] leaves the
    update in [self.sessions]. *)
Definition sweep_step (env : Env) (now : Q) (expire_seconds max_messages : Z)
    (item : string * Session) : prog Sweep unit :=
  let '(uid, session) := item in
  if is_idle now expire_seconds session then
    modify (λ acc,
      {| sw_state := sw_state acc;
         expired_users := expired_users acc ++ [uid];
         total_cleaned_messages := total_cleaned_messages acc |})
  else
    let original_count := length (messages session) in
    let '(new_messages, cleaned) := cleanup_messages max_messages (messages session) in
    let session' := set_messages new_messages session in
    modify (λ acc,
      {| sw_state := set_sessions (insert uid session') (sw_state acc);
         expired_users := expired_users acc;
         total_cleaned_messages := (total_cleaned_messages acc + cleaned)%Z |}) ;;;
    if decide (length new_messages ≠ original_count)
    then lift_sweep (_save_session env session')
    else ret tt.

(** [for item in items: body]: an exception of the body ends the loop. *)
Fixpoint for_each {St A} (body : A → prog St unit) (items : list A) : prog St unit :=
  match items with
  | [] => ret tt
  | item :: rest => body item ;;; for_each body rest
  end.

(** [del self.sessions[user_id]] and the removal of the snapshot file. *)
Definition drop_user (st : SessionMan) (uid : string) : SessionMan :=
  set_saved (delete uid) (set_sessions (delete uid) st).

(** [clear_expired_sessions].  Python goes through the dictionary in the
    order in which the users were entered, which the table does not record;
    [map_to_list] fixes one order, and the statements about the pass hold
    for every order.  An exception of the first loop reaches the caller
    before any idle session is deleted. *)
Definition clear_expired_sessions (env : Env) (now : Q) (expire_seconds max_messages : Z)
  : prog SessionMan (Z * Z) :=
  λ st,
    let current_time := now in
    match for_each (sweep_step env current_time expire_seconds max_messages)
            (map_to_list (sessions st))
            {| sw_state := st; expired_users := []; total_cleaned_messages := 0 |}
    with
    | (Ret _, swept) =>
      let st' := foldl drop_user (sw_state swept) (expired_users swept) in
      (Ret (Z.of_nat (length (expired_users swept)), total_cleaned_messages swept), st')
    | (Raise e, swept) => (Raise e, sw_state swept)
    | (Blocked, swept) => (Blocked, sw_state swept)
    end.

Definition default_expire_seconds : Z := 3 * 24 * 3600.
Definition default_max_messages : Z := 300.

(** [if cache_messages:] and [if cache:] on what [get_cache] returned. *)
Definition truthy_result (r : get_result) : bool :=
  match r with
  | GNone => false
  | GMessages msgs => match msgs with [] => false | _ :: _ => true end
  | GError text => negb (String.eqb text "")
  end.

Definition get_session (cfg : Config) (env : Env) (now : Q) (uid : string)
  : prog SessionMan (Session * bool) :=
  let current_time := now in
  last <- gets _last_cleanup ;;
  (if Qgtb (current_time - last) 3600
   then clear_expired_sessions env now default_expire_seconds default_max_messages ;;;
        modify (set_last_cleanup current_time)
   else ret tt) ;;;
  found <- gets (λ st, sessions st !! uid) ;;
  match found with
  | Some session => ret (session, false)
  | None =>
    cache_messages <- lift_cache (get_cache env (py_int now) (knowledge_file cfg)) ;;
    let first := {| role := "system"; content := character_desc cfg; timestamp := None |} in
    initial_messages <-
      (if truthy_result cache_messages then
         match cache_messages with
         | GMessages msgs =>
           ret (first :: ((λ msg, {| role := KimiCacheMan.role msg;
                                     content := KimiCacheMan.content msg;
                                     timestamp := None |}) <$> msgs))
         | _ => raise AttributeError   (* the characters of a [str] have no [role] *)
         end
       else ret [first]) ;;
    let session :=
      {| user_id := uid; messages := initial_messages;
         cache_hit_count := 0; cache_miss_count := 0;
         last_active_time := now; context := ∅ |} in
    modify (set_sessions (insert uid session)) ;;;
    ret (session, true)
  end.

(** [KimiSessionMan.add_message]. *)
Definition add_message (cfg : Config) (env : Env) (now : Q) (uid r c : string)
  : prog SessionMan unit :=
  sb <- get_session cfg env now uid ;;
  let session := session_add_message now r c sb.1 in
  modify (set_sessions (insert uid session)) ;;;
  _save_session env session.

(** The values passed at the call sites below. *)
Inductive pyval :=
| VNone
| VStr (s : string)
| VInt (z : Z)
| VMessages (l : list CacheMessage).

(** The signature of [KimiCacheMan.set_cache] after [self]: the names of its
    parameters and whether each has a default. *)
Definition set_cache_params : list (string * bool) :=
  [("file_path", false); ("messages", false); ("cache_tag", true);
   ("expire_seconds", true); ("cache_message", true)].

(** A call with keyword arguments binds when every keyword names a parameter
    and every parameter without a default is given. *)
Definition keywords_bind (params : list (string * bool)) (kwargs : list (string * pyval))
  : bool :=
  forallb (λ kv, bool_decide (kv.1 ∈ params.*1)) kwargs
  && forallb (λ p, p.2 || bool_decide (p.1 ∈ kwargs.*1)) params.

Definition kw (name : string) (kwargs : list (string * pyval)) : pyval :=
  default VNone ((list_to_map kwargs : gmap string pyval) !! name).

Definition as_str (v : pyval) : option string :=
  match v with VStr s => Some s | _ => None end.
Definition as_int (v : pyval) : option Z :=
  match v with VInt z => Some z | _ => None end.
Definition as_messages (v : pyval) : list CacheMessage :=
  match v with VMessages l => l | _ => [] end.

(** A call of [self.cache_man.set_cache] with keyword arguments only. *)
Definition call_set_cache (env : Env) (now : Z) (kwargs : list (string * pyval))
  : prog CacheMan unit :=
  if keywords_bind set_cache_params kwargs then
    set_cache env now (default "" (as_str (kw "file_path" kwargs)))
      (as_messages (kw "messages" kwargs)) (as_str (kw "cache_tag" kwargs))
      (as_int (kw "expire_seconds" kwargs)) (as_str (kw "cache_message" kwargs))
  else raise TypeError.

(** [cache.get('file_id')]: neither a [list] nor a [str] nor [None] has an
    attribute [get]. *)
Definition result_get (cache : get_result) (key : string) : outcome (option string) :=
  match cache with
  | GNone | GMessages _ | GError _ => Raise AttributeError
  end.

Definition int_or_none (o : option Z) : pyval :=
  match o with Some z => VInt z | None => VNone end.

Definition add_temp_knowledge (cfg : Config) (env : Env) (now : Q)
    (uid file_path : string) (expire_seconds : option Z)
  : prog SessionMan (option string) :=
  sb <- get_session cfg env now uid ;;
  let session := sb.1 in
  cache <- lift_cache (get_cache env (py_int now) file_path) ;;
  if truthy_result cache then
    let session := bump_hit session in
    modify (set_sessions (insert uid session)) ;;;
    hit_rate <- lift_outcome (get_cache_hit_rate session) ;;
    (if Qgtb hit_rate (8 # 10) then
       match expire_seconds with
       | Some secs =>
         lift_cache (refresh_cache env (py_int now) file_path (secs * 2)) ;;; ret tt
       | None => raise TypeError   (* [None * 2] *)
       end
     else ret tt) ;;;
    lift_outcome (result_get cache "file_id")
  else
    modify (set_sessions (insert uid (bump_miss session))) ;;;
    lift_cache (call_set_cache env (py_int now)
      [("file_path", VStr file_path); ("file_id", VNone);
       ("message", VStr "Added from session"); ("cache_tag", VStr uid);
       ("expire_seconds", int_or_none expire_seconds)]) ;;;
    ret None.

End KimiSessionMan.

(** * The remaining operations

    The operations of the three files that are layered on the ones above:
    the two message helpers of the cache manager, the context store of the
    session manager, and the chat entry point of [kimi_file_ctx.py]. *)

Module KimiCacheEdit.

Import KimiCacheMan.

(** [KimiCacheMan.add_message].  The record comes back from
    [get_cache_info] with its expired messages filtered out, and goes back
    through [set_cache] with the stored [cache_expired_time] passed as
    [expire_seconds]. *)
Definition add_message (env : Env) (now : Z) (file_path role content : string)
    (expire_seconds : option Z) : prog CacheMan bool :=
  cache_info <- get_cache_info env now file_path ;;
  match cache_info with
  | None => ret false
  | Some info =>
    let expired_time :=
      if truthy_int expire_seconds
      then Some (now + default 0%Z expire_seconds)%Z else None in
    let new_message :=
      {| role := role; content := content; expired_time := expired_time |} in
    let messages := info_messages info ++ [new_message] in
    set_cache env now file_path messages (info_cache_tag info)
      (info_cache_expired_time info) (info_cache_message info) ;;;
    ret true
  end.

(** [KimiCacheMan.clear_expired_messages].  The clock is read twice: by
    [get_cache_info] ([now]) and afterwards by [is_expired] and [set_cache]
    ([later]). *)
Definition clear_expired_messages (env : Env) (now later : Z) (file_path : string)
  : prog CacheMan Z :=
  cache_info <- get_cache_info env now file_path ;;
  match cache_info with
  | None => ret 0%Z
  | Some info =>
    let original_count := length (info_messages info) in
    let valid_messages := filter (λ m, ¬ is_expired later m) (info_messages info) in
    (if decide (length valid_messages < original_count) then
       set_cache env later file_path valid_messages (info_cache_tag info)
         (info_cache_expired_time info) (info_cache_message info)
     else ret tt) ;;;
    ret (Z.of_nat original_count - Z.of_nat (length valid_messages))%Z
  end.

End KimiCacheEdit.

Module KimiSessionContext.

Import KimiCacheMan KimiSessionMan.

Definition put_context (key value : string) (s : Session) : Session :=
  {| user_id := user_id s; messages := KimiSessionMan.messages s;
     cache_hit_count := cache_hit_count s; cache_miss_count := cache_miss_count s;
     last_active_time := last_active_time s;
     context := <[key := value]> (context s) |}.

(** [KimiSessionMan.set_context]. *)
Definition set_context (cfg : Config) (env : Env) (now : Q) (uid key value : string)
  : prog SessionMan unit :=
  sb <- get_session cfg env now uid ;;
  let session := put_context key value sb.1 in
  modify (set_sessions (insert uid session)) ;;;
  _save_session env session.

(** [KimiSessionMan.get_context]. *)
Definition get_context (cfg : Config) (env : Env) (now : Q) (uid key : string)
  : prog SessionMan (option string) :=
  sb <- get_session cfg env now uid ;;
  ret (context sb.1 !! key).

End KimiSessionContext.

Module KimiFileContext.

Import KimiCacheMan KimiSessionMan.

(** [try: body except Exception: handler].  The handler runs in the state
    the exception left behind. *)
Definition try_except {St A} (body handler : prog St A) : prog St A :=
  λ st, match body st with
        | (Raise _, st') => handler st'
        | r => r
        end.

Definition chat_failed_text : string := "处理知识库聊天失败".

(** [KimiFileContext.proc_knowledge_chat].  [complete] stands for
    [self.client.chat.completions.create] followed by the reading of the
    first choice: the text of the reply, [None] when the client raises. *)
Definition proc_knowledge_chat (cfg : Config) (env : Env)
    (complete : list Message → option string) (now : Q) (session content : string)
  : prog SessionMan string :=
  try_except
    (sb <- get_session cfg env now session ;;
     let session_obj := sb.1 in
     let messages :=
       KimiSessionMan.messages session_obj
       ++ [ {| KimiSessionMan.role := "user"; KimiSessionMan.content := content;
               timestamp := None |} ] in
     completion <- lift_outcome
       (match complete messages with
        | Some reply => Ret reply
        | None => Raise ApiError
        end) ;;
     KimiSessionMan.add_message cfg env now session "user" content ;;;
     KimiSessionMan.add_message cfg env now session "assistant" completion ;;;
     ret completion)
    (ret chat_failed_text).

End KimiFileContext.

(** * Closed forms used in the proofs *)

(** The survivors of deduplication, by recursion on the chronological list:
    a message stays unless its content occurs again later in the list.
    [dedup_fold] below shows that the loop of [_deduplicate_messages]
    computes this list. *)
Fixpoint keep_last_occurrence (l : list KimiSessionMan.Message)
  : list KimiSessionMan.Message :=
  match l with
  | [] => []
  | m :: rest =>
    if decide (KimiSessionMan.content m ∈ KimiSessionMan.content <$> rest)
    then keep_last_occurrence rest
    else m :: keep_last_occurrence rest
  end.

(** A session after the body of the loop of [clear_expired_sessions]. *)
Definition cleaned (max_messages : Z) (s : KimiSessionMan.Session)
  : KimiSessionMan.Session :=
  KimiSessionMan.set_messages
    (KimiSessionMan.cleanup_messages max_messages (KimiSessionMan.messages s)).1 s.

(** The body of the loop changes the length of the message list of [s], so
    that the snapshot of [s] is written again. *)
Definition shortened (max_messages : Z) (s : KimiSessionMan.Session) : Prop :=
  length (KimiSessionMan.messages (cleaned max_messages s))
  ≠ length (KimiSessionMan.messages s).

(** The variables of the loop after a round in which the snapshot, where
    one was due, was written. *)
Definition swept_step (now : Q) (expire_seconds max_messages : Z)
    (acc : KimiSessionMan.Sweep) (item : string * KimiSessionMan.Session)
  : KimiSessionMan.Sweep :=
  let '(uid, session) := item in
  if KimiSessionMan.is_idle now expire_seconds session then
    {| KimiSessionMan.sw_state := KimiSessionMan.sw_state acc;
       KimiSessionMan.expired_users := KimiSessionMan.expired_users acc ++ [uid];
       KimiSessionMan.total_cleaned_messages := KimiSessionMan.total_cleaned_messages acc |}
  else
    let original_count := length (KimiSessionMan.messages session) in
    let '(new_messages, cleaned) :=
      KimiSessionMan.cleanup_messages max_messages (KimiSessionMan.messages session) in
    let session' := KimiSessionMan.set_messages new_messages session in
    let st1 := KimiSessionMan.set_sessions (insert uid session') (KimiSessionMan.sw_state acc) in
    let st2 :=
      if decide (length new_messages ≠ original_count)
      then KimiSessionMan.set_saved (insert (KimiSessionMan.user_id session') session') st1
      else st1 in
    {| KimiSessionMan.sw_state := st2;
       KimiSessionMan.expired_users := KimiSessionMan.expired_users acc;
       KimiSessionMan.total_cleaned_messages :=
         (KimiSessionMan.total_cleaned_messages acc + cleaned)%Z |}.

(** The pass in which every snapshot that is due is written: what
    [clear_expired_sessions] does when it returns, as
    [clear_expired_sessions_returns] below shows. *)
Definition clean_pass (now : Q) (expire_seconds max_messages : Z)
  : prog KimiSessionMan.SessionMan (Z * Z) :=
  λ st,
    let swept :=
      foldl (swept_step now expire_seconds max_messages)
        {| KimiSessionMan.sw_state := st; KimiSessionMan.expired_users := [];
           KimiSessionMan.total_cleaned_messages := 0 |}
        (map_to_list (KimiSessionMan.sessions st)) in
    let st' :=
      foldl KimiSessionMan.drop_user (KimiSessionMan.sw_state swept)
        (KimiSessionMan.expired_users swept) in
    (Ret (Z.of_nat (length (KimiSessionMan.expired_users swept)),
          KimiSessionMan.total_cleaned_messages swept), st').

(** When the pass has to write the snapshot of [s], it can be written. *)
Definition round_writable (env : KimiCacheMan.Env) (now : Q)
    (expire_seconds max_messages : Z) (s : KimiSessionMan.Session) : Prop :=
  KimiSessionMan.is_idle now expire_seconds s = false →
  shortened max_messages s →
  KimiCacheMan.snapshot_error env (KimiSessionMan.user_id s) = None.

(** The snapshots that a pass over [st] has to write can all be written. *)
Definition snapshots_writable (env : KimiCacheMan.Env) (now : Q)
    (expire_seconds max_messages : Z) (st : KimiSessionMan.SessionMan) : Prop :=
  ∀ uid s, KimiSessionMan.sessions st !! uid = Some s →
    round_writable env now expire_seconds max_messages s.

(** * Sample inputs *)

Module Samples.

Import KimiCacheMan.

(** Three files on disk; the remote API extracts a text from each.  There
    is no directory [x] under [save_dir]. *)
Definition env : Env :=
  {| file_digest := λ p, if String.eqb p "a.txt" then Some "h1"
                         else if String.eqb p "k.txt" then Some "h2"
                         else if String.eqb p "b.txt" then Some "h3" else None;
     file_extract := λ _, Some "text";
     caching_status := 200;
     snapshot_error := λ uid, if String.eqb uid "x/y" then Some FileNotFoundError
                              else None |}.

(** The same disk with an API that raises on every upload. *)
Definition env_down : Env :=
  {| file_digest := file_digest env;
     file_extract := λ _, None;
     caching_status := 500;
     snapshot_error := snapshot_error env |}.

Definition live_msg : CacheMessage :=
  {| role := "system"; content := "x"; expired_time := None |}.
Definition old_msg : CacheMessage :=
  {| role := "system"; content := "y"; expired_time := Some 50%Z |}.

(** The record of [a.txt], valid until second 100. *)
Definition row_a : Row :=
  {| file_path := "a.txt"; messages := Some [live_msg; old_msg];
     cache_tag := Some "alice"; cache_expired_time := Some 100%Z;
     cache_message := None; create_time := 0; update_time := 0 |}.

(** The record of [b.txt]: its only message expired at second 50. *)
Definition row_b : Row :=
  {| file_path := "b.txt"; messages := Some [old_msg];
     cache_tag := None; cache_expired_time := None;
     cache_message := None; create_time := 0; update_time := 0 |}.

Definition cache_a : CacheMan := {| db := {[ "h1" := row_a ]}; lock_held := false |}.
Definition cache_b : CacheMan := {| db := {[ "h3" := row_b ]}; lock_held := false |}.
Definition cache_empty : CacheMan := {| db := ∅; lock_held := false |}.

Import KimiSessionMan.

(** A manager whose knowledge file is [k.txt]. *)
Definition cfg : Config := {| knowledge_file := "k.txt"; character_desc := "persona" |}.
Definition usr (c : string) : Message :=
  {| KimiSessionMan.role := "user"; KimiSessionMan.content := c; timestamp := None |}.
Definition sys (c : string) : Message :=
  {| KimiSessionMan.role := "system"; KimiSessionMan.content := c; timestamp := None |}.

(** Two system messages and ten distinct user messages. *)
Definition long_session : Session :=
  {| user_id := "u1";
     KimiSessionMan.messages :=
       [sys "s1"; sys "s2"; usr "1"; usr "2"; usr "3"; usr "4"; usr "5";
        usr "6"; usr "7"; usr "8"; usr "9"; usr "10"];
     cache_hit_count := 4; cache_miss_count := 1;
     last_active_time := 0; context := ∅ |}.

(** A manager holding that session, and one holding none. *)
Definition man_long : SessionMan :=
  {| sessions := {[ "u1" := long_session ]}; cache_man := cache_a;
     saved := ∅; _last_cleanup := 0 |}.
Definition man_fresh : SessionMan :=
  {| sessions := ∅; cache_man := cache_a; saved := ∅; _last_cleanup := 0 |}.
Definition man_stale : SessionMan :=
  {| sessions := ∅; cache_man := cache_b; saved := ∅; _last_cleanup := 0 |}.

End Samples.

(** * Further definitions for the statements below *)

(** A call came back, by a return or by an exception, and left [self.lock]
    free. *)
Definition came_back {A} (r : outcome A * KimiCacheMan.CacheMan) : Prop :=
  r.1 ≠ Blocked ∧ KimiCacheMan.lock_held r.2 = false.

(** Every session of the table is stored under its own [user_id]. *)
Definition keyed (st : KimiSessionMan.SessionMan) : Prop :=
  ∀ uid s, KimiSessionMan.sessions st !! uid = Some s → KimiSessionMan.user_id s = uid.

(** The cleanup of [get_session] is not due. *)
Definition quiet (now : Q) (st : KimiSessionMan.SessionMan) : Prop :=
  KimiSessionMan.Qgtb (now - KimiSessionMan._last_cleanup st) 3600 = false.

(** The session that [get_session] builds for a new user out of the
    messages of the knowledge file. *)
Definition copy_message (msg : KimiCacheMan.CacheMessage) : KimiSessionMan.Message :=
  {| KimiSessionMan.role := KimiCacheMan.role msg;
     KimiSessionMan.content := KimiCacheMan.content msg;
     KimiSessionMan.timestamp := None |}.

Definition fresh_session (cfg : KimiSessionMan.Config) (uid : string) (now : Q)
    (knowledge : list KimiCacheMan.CacheMessage) : KimiSessionMan.Session :=
  {| KimiSessionMan.user_id := uid;
     KimiSessionMan.messages :=
       {| KimiSessionMan.role := "system";
          KimiSessionMan.content := KimiSessionMan.character_desc cfg;
          KimiSessionMan.timestamp := None |} :: (copy_message <$> knowledge);
     KimiSessionMan.cache_hit_count := 0; KimiSessionMan.cache_miss_count := 0;
     KimiSessionMan.last_active_time := now; KimiSessionMan.context := ∅ |}.

Definition with_cache (c : KimiCacheMan.CacheMan) (st : KimiSessionMan.SessionMan)
  : KimiSessionMan.SessionMan :=
  {| KimiSessionMan.sessions := KimiSessionMan.sessions st;
     KimiSessionMan.cache_man := c;
     KimiSessionMan.saved := KimiSessionMan.saved st;
     KimiSessionMan._last_cleanup := KimiSessionMan._last_cleanup st |}.

(** * Further sample inputs *)

Module MoreSamples.

Import KimiCacheMan.

(** The disk of [Samples.env] with a copy of [a.txt] under another name. *)
Definition env_alias : Env :=
  {| file_digest := λ p, if String.eqb p "copy.txt" then Some "h1"
                         else file_digest Samples.env p;
     file_extract := file_extract Samples.env;
     caching_status := 200;
     snapshot_error := snapshot_error Samples.env |}.

End MoreSamples.

Module MoreSessions.

Import KimiSessionMan.

(** A manager whose knowledge file is [a.txt]. *)
Definition cfg_a : Config := {| knowledge_file := "a.txt"; character_desc := "persona" |}.

(** A manager whose knowledge file is [b.txt]. *)
Definition cfg_b : Config := {| knowledge_file := "b.txt"; character_desc := "persona" |}.

(** A completion client that always answers. *)
Definition answers_ok : list Message → option string := λ _, Some "ok".

(** A user whose name has a path separator, with a message said twice, and
    a manager that holds this user next to the one of [Samples.man_long]. *)
Definition slash_session : Session :=
  {| user_id := "x/y";
     messages := [Samples.usr "a"; Samples.usr "a"];
     cache_hit_count := 0; cache_miss_count := 0;
     last_active_time := 0; context := ∅ |}.
Definition man_slash : SessionMan :=
  {| sessions := <["x/y" := slash_session]> {[ "u1" := Samples.long_session ]};
     cache_man := Samples.cache_a; saved := ∅; _last_cleanup := 0 |}.

End MoreSessions.

(** * The content cache *)

Section cache_facts.

Import KimiCacheMan.

Variable env : Env.

(** The first steps of every operation on an existing file with the lock
    free: the hash is computed, the lock is taken and the row is looked up. *)
Ltac enter_cache Hl Hd :=
  unfold path_exists, _calculate_file_hash; rewrite Hd; simpl;
  unfold bind, ret, with_lock, with_conn, select_by_hash, gets, lift_outcome;
  rewrite Hl; simpl.

Lemma unlocked_eta (st : CacheMan) :
  lock_held st = false → {| db := db st; lock_held := false |} = st.
Proof. destruct st; simpl; intros ->; reflexivity. Qed.

Lemma past_expiry_true now t :
  past_expiry now (Some t) = true ↔ t ≠ 0%Z ∧ (t < now)%Z.
Proof.
  unfold past_expiry, truthy_int; simpl.
  rewrite andb_true_iff, negb_true_iff, Z.eqb_neq, Z.gtb_ltb, Z.ltb_lt.
  reflexivity.
Qed.

Lemma past_expiry_false now t :
  (now ≤ t)%Z → past_expiry now (Some t) = false.
Proof.
  intros Hle. destruct (past_expiry now (Some t)) eqn:E; [|reflexivity].
  apply past_expiry_true in E. lia.
Qed.

Lemma past_expiry_unset now : past_expiry now None = false.
Proof. reflexivity. Qed.

(** [is_expired] says that the expiry time lies strictly in the past. *)
Lemma is_expired_true now m :
  is_expired now m = true ↔ ∃ e, expired_time m = Some e ∧ (e < now)%Z.
Proof.
  unfold is_expired. destruct (expired_time m) as [e|].
  - rewrite Z.gtb_ltb, Z.ltb_lt. split; [eauto|]. intros (e' & [= <-] & ?); done.
  - split; [done|]. intros (? & ? & ?); done.
Qed.

Lemma elem_of_deserialize now msgs m :
  m ∈ _deserialize_messages now (Some msgs) ↔ m ∈ msgs ∧ is_expired now m = false.
Proof.
  unfold _deserialize_messages. rewrite list_elem_of_filter.
  destruct (is_expired now m); simpl; intuition congruence.
Qed.

(** A record is found: [get_cache] answers its messages and writes nothing. *)
Lemma get_cache_found now path h r (st : CacheMan) :
  lock_held st = false → file_digest env path = Some h → db st !! h = Some r →
  get_cache env now path st
  = (Ret (GMessages (_deserialize_messages now (messages r))), st).
Proof.
  intros Hl Hd Hr.
  unfold get_cache. enter_cache Hl Hd.
  rewrite Hr. destruct (past_expiry now (cache_expired_time r)); simpl;
    by rewrite unlocked_eta.
Qed.

(** No record: [get_cache] turns to the upload. *)
Lemma get_cache_missing now path h (st : CacheMan) :
  lock_held st = false → file_digest env path = Some h → db st !! h = None →
  get_cache env now path st
  = match upload_files env now [path] None with
    | Ret [] => (Ret (GError upload_failed_text), st)
    | Ret (m :: ms) =>
      (Ret (GMessages (m :: ms)),
       set_db (insert h {| file_path := path; messages := Some (m :: ms);
                           cache_tag := None; cache_expired_time := None;
                           cache_message := None;
                           create_time := now; update_time := now |}) st)
    | Raise e => (Raise e, st)
    | Blocked => (Blocked, {| db := db st; lock_held := true |})
    end.
Proof.
  intros Hl Hd Hr.
  unfold get_cache. enter_cache Hl Hd. rewrite Hr.
  destruct (upload_files env now [path] None) as [[|m ms]|e|]; simpl.
  - by rewrite unlocked_eta.
  - unfold set_db, DotDict. simpl. rewrite Hl, list_fmap_id. reflexivity.
  - by rewrite unlocked_eta.
  - reflexivity.
Qed.

Lemma get_cache_info_absent now path h (st : CacheMan) :
  lock_held st = false → file_digest env path = Some h → db st !! h = None →
  get_cache_info env now path st = (Ret None, st).
Proof.
  intros Hl Hd Hr.
  unfold get_cache_info. enter_cache Hl Hd.
  rewrite Hr. simpl. by rewrite unlocked_eta.
Qed.

Lemma get_cache_info_live now path h r (st : CacheMan) :
  lock_held st = false → file_digest env path = Some h → db st !! h = Some r →
  past_expiry now (cache_expired_time r) = false →
  get_cache_info env now path st = (Ret (Some (row_info now h r)), st).
Proof.
  intros Hl Hd Hr Hp.
  unfold get_cache_info. enter_cache Hl Hd.
  rewrite Hr. simpl. rewrite Hp. simpl. by rewrite unlocked_eta.
Qed.

(** Past the expiry [get_cache_info] calls [remove_cache] while it holds
    [self.lock]; [remove_cache] asks for the same lock and never gets it. *)
Lemma get_cache_info_expired now path h r (st : CacheMan) :
  lock_held st = false → file_digest env path = Some h → db st !! h = Some r →
  past_expiry now (cache_expired_time r) = true →
  get_cache_info env now path st = (Blocked, {| db := db st; lock_held := true |}).
Proof.
  intros Hl Hd Hr Hp.
  unfold get_cache_info. enter_cache Hl Hd.
  rewrite Hr. simpl. rewrite Hp. reflexivity.
Qed.

End cache_facts.

Section cache_properties.

Import KimiCacheMan.

Lemma get_cache_by_tag_unlocked now tag (st : CacheMan) :
  lock_held st = false →
  get_cache_by_tag now tag st
  = (Ret ((λ kv, row_info now kv.1 kv.2)
          <$> filter (λ kv, cache_tag kv.2 = Some tag) (map_to_list (db st))), st).
Proof.
  intros Hl. unfold get_cache_by_tag, with_lock, with_conn, bind, gets, ret.
  rewrite Hl. simpl. by rewrite unlocked_eta.
Qed.

(** C1 at the failing input.  The record of [a.txt] expires at second 100.
    Read at second 200, long after, [get_cache] does not treat the record as
    expired: the test on [cache_expired_time] only writes a log line, and the
    call answers the stored content and leaves the record in the table.  The
    other read, [get_cache_info], does not answer absence at that second
    either: it never returns. *)
Theorem get_cache_serves_expired :
  db Samples.cache_a !! "h1" = Some Samples.row_a
  ∧ cache_expired_time Samples.row_a = Some 100%Z
  ∧ past_expiry 200 (cache_expired_time Samples.row_a) = true
  ∧ get_cache Samples.env 200 "a.txt" Samples.cache_a
    = (Ret (GMessages [Samples.live_msg]), Samples.cache_a)
  ∧ (get_cache_info Samples.env 200 "a.txt" Samples.cache_a).1 = Blocked.
Proof. repeat split; vm_compute; reflexivity. Qed.

(** C2 at the failing input.  The record of [a.txt] expired at second 100; a
    call of [get_cache_info] at second 101 neither answers absence nor
    deletes the record: it stops for ever inside [remove_cache], holding the
    lock, with the record still in the table. *)
Theorem get_cache_info_expired_blocks :
  get_cache_info Samples.env 101 "a.txt" Samples.cache_a
  = (Blocked, {| db := db Samples.cache_a; lock_held := true |})
  ∧ db Samples.cache_a !! "h1" = Some Samples.row_a.
Proof. split; vm_compute; reflexivity. Qed.

(** C6.  A stored message whose [expired_time] is set and strictly in the
    past is absent from what [get_cache], [get_cache_by_tag] and
    [get_cache_info] answer for its record, and none of the three reads
    changes the table: the record stays where it is. *)
Theorem expired_message_filtered (env : Env) (now : Z) (path h tag : string)
    (r : Row) (msgs : list CacheMessage) (m : CacheMessage) (e : Z) (st : CacheMan) :
  lock_held st = false → file_digest env path = Some h → db st !! h = Some r →
  messages r = Some msgs → m ∈ msgs → expired_time m = Some e → (e < now)%Z →
  (∃ out, get_cache env now path st = (Ret (GMessages out), st)
          ∧ (m ∉ out) ∧ ∀ m', m' ∈ out ↔ m' ∈ msgs ∧ is_expired now m' = false)
  ∧ (∃ infos, get_cache_by_tag now tag st = (Ret infos, st)
              ∧ (cache_tag r = Some tag → row_info now h r ∈ infos)
              ∧ ∀ info, info ∈ infos → info_file_hash info = h →
                        m ∉ info_messages info)
  ∧ ((m ∉ info_messages (row_info now h r))
     ∧ (past_expiry now (cache_expired_time r) = false →
        get_cache_info env now path st = (Ret (Some (row_info now h r)), st))
     ∧ (∀ info, (get_cache_info env now path st).1 = Ret (Some info) →
                m ∉ info_messages info)
     ∧ db (get_cache_info env now path st).2 = db st).
Proof.
  intros Hl Hd Hr Hm Hin He Hlt.
  assert (Hexp : is_expired now m = true) by (apply is_expired_true; eauto).
  assert (Hout : m ∉ _deserialize_messages now (messages r)).
  { rewrite Hm, elem_of_deserialize. intros [_ ?]. congruence. }
  split; [|split].
  - exists (_deserialize_messages now (messages r)). split; [|split].
    + by apply (get_cache_found env now path h).
    + done.
    + intros m'. rewrite Hm. apply elem_of_deserialize.
  - eexists. split; [by apply get_cache_by_tag_unlocked|]. split.
    + intros Htag. apply list_elem_of_fmap. exists (h, r). split; [done|].
      apply list_elem_of_filter. split; [done|]. by apply elem_of_map_to_list.
    + intros info Hinfo Hh.
      apply list_elem_of_fmap in Hinfo as ([k r'] & -> & Hkv).
      apply list_elem_of_filter in Hkv as [_ Hkv].
      apply elem_of_map_to_list in Hkv. simpl in *. subst k.
      rewrite Hr in Hkv. injection Hkv as <-. done.
  - split; [done|]. split; [by apply get_cache_info_live|].
    destruct (past_expiry now (cache_expired_time r)) eqn:Hp.
    + rewrite (get_cache_info_expired env now path h r st); done.
    + rewrite (get_cache_info_live env now path h r st); try done.
      simpl. split; [|done]. intros info [= <-]. done.
Qed.

Lemma expired_message_filtered_witness :
  ∃ out, get_cache Samples.env 60 "a.txt" Samples.cache_a
         = (Ret (GMessages out), Samples.cache_a)
         ∧ (Samples.old_msg ∉ out)
         ∧ ∀ m', m' ∈ out ↔ m' ∈ [Samples.live_msg; Samples.old_msg]
                            ∧ is_expired 60 m' = false.
Proof.
  apply (expired_message_filtered Samples.env 60 "a.txt" "h1" "alice" Samples.row_a
           [Samples.live_msg; Samples.old_msg] Samples.old_msg 50 Samples.cache_a);
    [reflexivity | reflexivity | reflexivity | reflexivity
    | apply list_elem_of_further, list_elem_of_here | reflexivity | lia].
Defined.

(** C7, as the code has it.  On a path whose hash has a record, and for an
    [extend_seconds] that keeps [now + extend_seconds] within the 64 bits of
    the INTEGER column, [refresh_cache] answers [True] and leaves the record
    with [cache_expired_time = now + extend_seconds], whatever the expiry was
    before, and with [update_time = now]; its messages and its other columns
    are as before and so are all other records.  When [now + extend_seconds]
    does not fit, the UPDATE raises [OverflowError] and the table is as
    before.  On a path whose hash has no record the call answers [False] and
    the table is as before. *)
Theorem refresh_cache_renews (env : Env) (now delta : Z) (path h : string)
    (st : CacheMan) :
  lock_held st = false → file_digest env path = Some h →
  match db st !! h with
  | Some r =>
    if fits_int64 (now + delta) then
      ∃ st', refresh_cache env now path delta st = (Ret true, st')
        ∧ lock_held st' = false
        ∧ db st' = <[h := update_expiry (now + delta) now r]> (db st)
        ∧ (∃ r', db st' !! h = Some r'
             ∧ cache_expired_time r' = Some (now + delta)%Z
             ∧ messages r' = messages r
             ∧ file_path r' = file_path r ∧ cache_tag r' = cache_tag r
             ∧ cache_message r' = cache_message r ∧ create_time r' = create_time r)
        ∧ ∀ h', h' ≠ h → db st' !! h' = db st !! h'
    else refresh_cache env now path delta st = (Raise OverflowError, st)
  | None => refresh_cache env now path delta st = (Ret false, st)
  end.
Proof.
  intros Hl Hd.
  unfold refresh_cache, _calculate_file_hash. rewrite Hd.
  unfold bind, ret, raise, with_lock, with_conn, select_by_hash, gets, modify. simpl.
  rewrite Hl. simpl.
  destruct (db st !! h) as [r|] eqn:Hr; simpl.
  - destruct (fits_int64 (now + delta)); simpl.
    + eexists. split; [reflexivity|]. simpl. split; [done|]. split; [done|]. split.
      * exists (update_expiry (now + delta) now r). rewrite lookup_insert_eq. done.
      * intros h' Hne. by rewrite lookup_insert_ne.
    + by rewrite unlocked_eta.
  - by rewrite unlocked_eta.
Qed.

Lemma refresh_cache_renews_witness :
  ∃ st', refresh_cache Samples.env 500 "a.txt" 60 Samples.cache_a = (Ret true, st')
    ∧ lock_held st' = false
    ∧ db st' = <["h1" := update_expiry (500 + 60) 500 Samples.row_a]> (db Samples.cache_a)
    ∧ (∃ r', db st' !! "h1" = Some r'
         ∧ cache_expired_time r' = Some (500 + 60)%Z
         ∧ messages r' = messages Samples.row_a
         ∧ file_path r' = file_path Samples.row_a
         ∧ cache_tag r' = cache_tag Samples.row_a
         ∧ cache_message r' = cache_message Samples.row_a
         ∧ create_time r' = create_time Samples.row_a)
    ∧ ∀ h', h' ≠ "h1" → db st' !! h' = db Samples.cache_a !! h'.
Proof.
  apply (refresh_cache_renews Samples.env 500 60 "a.txt" "h1" Samples.cache_a);
    reflexivity.
Defined.

(** C7, as the specification words it, fails on the record of [a.txt], whose
    expiry is second 100: [refresh_cache] at second 500 with
    [extend_seconds = 2^63] does not answer [True] and does not set the
    expiry to [500 + 2^63]; it raises [OverflowError] and the record keeps
    the expiry it had. *)
Lemma refresh_cache_renews_counterexample :
  db Samples.cache_a !! "h1" = Some Samples.row_a
  ∧ cache_expired_time Samples.row_a = Some 100%Z
  ∧ refresh_cache Samples.env 500 "a.txt" (2 ^ 63) Samples.cache_a
    = (Raise OverflowError, Samples.cache_a)
  ∧ (refresh_cache Samples.env 500 "a.txt" (2 ^ 63) Samples.cache_a).1 ≠ Ret true
  ∧ cache_expired_time
      <$> db (refresh_cache Samples.env 500 "a.txt" (2 ^ 63) Samples.cache_a).2 !! "h1"
    ≠ Some (Some (500 + 2 ^ 63)%Z).
Proof. repeat split; vm_compute; congruence. Qed.

(** C8.  [get_cache] on an existing file that has no record, when the upload
    does not bring back any message (it raises, or it brings back an empty
    list): the caller gets the exception or the error text, never a list of
    messages, and the cache manager is exactly as before; no record was
    written under the hash of the file. *)
Theorem ingestion_failure_leaves_cache (env : Env) (now : Z) (path h : string)
    (st : CacheMan) :
  lock_held st = false → file_digest env path = Some h → db st !! h = None →
  (∀ m ms, upload_files env now [path] None ≠ Ret (m :: ms)) →
  ∃ res, get_cache env now path st = (res, st)
    ∧ ((∃ e, res = Raise e) ∨ res = Ret (GError upload_failed_text))
    ∧ db (get_cache env now path st).2 !! h = None.
Proof.
  intros Hl Hd Hr Hfail.
  rewrite (get_cache_missing env now path h st Hl Hd Hr).
  destruct (upload_files env now [path] None) as [[|m ms]|e|] eqn:Hu.
  - eexists. split; [reflexivity|]. split; [by right | done].
  - by destruct (Hfail m ms).
  - eexists. split; [reflexivity|]. split; [left; eauto | done].
  - exfalso. unfold upload_files in Hu. simpl in Hu.
    destruct (file_extract env path); simpl in Hu; discriminate.
Qed.

Lemma ingestion_failure_leaves_cache_witness :
  ∃ res, get_cache Samples.env_down 7 "a.txt" Samples.cache_empty
         = (res, Samples.cache_empty)
    ∧ ((∃ e, res = Raise e) ∨ res = Ret (GError upload_failed_text))
    ∧ db (get_cache Samples.env_down 7 "a.txt" Samples.cache_empty).2 !! "h1" = None.
Proof.
  apply (ingestion_failure_leaves_cache Samples.env_down 7 "a.txt" "h1"
           Samples.cache_empty); [reflexivity | reflexivity | reflexivity |].
  intros m ms. vm_compute. discriminate.
Defined.

(** C10.  [set_cache] with [expire_seconds = 0] does what it does with
    [expire_seconds] left out: the record is stored with [cache_expired_time]
    unset, and every later [get_cache_info] and [get_cache] answers it. *)
Theorem set_cache_zero_ttl_unset (env : Env) (now : Z) (path h : string)
    (msgs : list CacheMessage) (tag note : option string) (st : CacheMan) :
  lock_held st = false → file_digest env path = Some h →
  set_cache env now path msgs tag (Some 0%Z) note st
  = set_cache env now path msgs tag None note st
  ∧ ∃ st' r, set_cache env now path msgs tag (Some 0%Z) note st = (Ret tt, st')
      ∧ lock_held st' = false
      ∧ db st' !! h = Some r
      ∧ cache_expired_time r = None
      ∧ messages r = Some msgs
      ∧ ∀ later, get_cache_info env later path st'
                   = (Ret (Some (row_info later h r)), st')
                 ∧ get_cache env later path st'
                   = (Ret (GMessages (_deserialize_messages later (Some msgs))), st').
Proof.
  intros Hl Hd. split; [reflexivity|].
  pose (r := {| file_path := path; messages := Some msgs; cache_tag := tag;
                cache_expired_time := None; cache_message := note;
                create_time := now; update_time := now |}).
  exists (set_db (insert h r) st), r.
  assert (Hlook : db (set_db (insert h r) st) !! h = Some r)
    by apply lookup_insert_eq.
  split; [|split; [done|split; [done|split; [done|split; [done|]]]]].
  - unfold set_cache, _calculate_file_hash. rewrite Hd.
    unfold bind, ret, with_lock, with_conn, insert_cache, modify, set_db. simpl.
    rewrite Hl. reflexivity.
  - intros later. split.
    + by apply get_cache_info_live.
    + by apply (get_cache_found env later path h r).
Qed.

Lemma set_cache_zero_ttl_unset_witness :
  set_cache Samples.env 7 "a.txt" [Samples.live_msg] None (Some 0%Z) None
    Samples.cache_empty
  = set_cache Samples.env 7 "a.txt" [Samples.live_msg] None None None
      Samples.cache_empty
  ∧ ∃ st' r, set_cache Samples.env 7 "a.txt" [Samples.live_msg] None (Some 0%Z) None
               Samples.cache_empty = (Ret tt, st')
      ∧ lock_held st' = false
      ∧ db st' !! "h1" = Some r
      ∧ cache_expired_time r = None
      ∧ messages r = Some [Samples.live_msg]
      ∧ ∀ later, get_cache_info Samples.env later "a.txt" st'
                   = (Ret (Some (row_info later "h1" r)), st')
                 ∧ get_cache Samples.env later "a.txt" st'
                   = (Ret (GMessages
                        (_deserialize_messages later (Some [Samples.live_msg]))), st').
Proof.
  apply (set_cache_zero_ttl_unset Samples.env 7 "a.txt" "h1" [Samples.live_msg]
           None None Samples.cache_empty); reflexivity.
Defined.

End cache_properties.

(** * The session manager *)

Import KimiSessionMan.

Section dedup_facts.

Lemma dedup_fold (l : list Message) :
  foldl dedup_step (∅, []) (reverse l)
  = (list_to_set (content <$> l), reverse (keep_last_occurrence l)).
Proof.
  induction l as [|m l IH]; [reflexivity|].
  rewrite reverse_cons, foldl_snoc, IH. unfold dedup_step. simpl.
  destruct (decide (content m ∈ content <$> l)) as [Hin|Hin].
  - rewrite decide_True by (by apply elem_of_list_to_set).
    f_equal. symmetry. apply subseteq_union_1_L, singleton_subseteq_l.
    by apply elem_of_list_to_set.
  - rewrite decide_False by (by rewrite elem_of_list_to_set).
    by rewrite reverse_cons.
Qed.

Lemma keep_last_sublist l : keep_last_occurrence l `sublist_of` l.
Proof.
  induction l as [|m l IH]; simpl; [constructor|].
  case_decide; by constructor.
Qed.

Lemma keep_last_contents l c :
  c ∈ content <$> keep_last_occurrence l ↔ c ∈ content <$> l.
Proof.
  induction l as [|m l IH]; simpl; [done|].
  case_decide as Hin; rewrite ?fmap_cons, !elem_of_cons, ?IH; [|done].
  split; [by right|]. intros [->|?]; done.
Qed.

Lemma keep_last_NoDup l : NoDup (content <$> keep_last_occurrence l).
Proof.
  induction l as [|m l IH]; simpl; [constructor|].
  case_decide as Hin; [done|]. rewrite fmap_cons. constructor; [|done].
  by rewrite keep_last_contents.
Qed.

Lemma keep_last_is_last l m :
  m ∈ keep_last_occurrence l →
  ∃ before after, l = before ++ m :: after ∧ content m ∉ content <$> after.
Proof.
  induction l as [|x l IH]; simpl; [by intros ?%elem_of_nil|].
  case_decide as Hin.
  - intros (b & a & -> & Ha)%IH. by exists (x :: b), a.
  - intros [->|Hm]%elem_of_cons.
    + by exists [], l.
    + destruct (IH Hm) as (b & a & -> & Ha). by exists (x :: b), a.
Qed.

Lemma keep_last_id l : NoDup (content <$> l) → keep_last_occurrence l = l.
Proof.
  induction l as [|m l IH]; simpl; [done|].
  intros [Hm Hl]%NoDup_cons.
  rewrite decide_False by done. by rewrite IH.
Qed.

Lemma filter_idemp {A} (P : A → Prop) `{∀ x, Decision (P x)} (l : list A) :
  Forall P l → filter P l = l.
Proof.
  induction 1 as [|x l Hx Hl IH]; [done|].
  rewrite filter_cons, decide_True by done. by rewrite IH.
Qed.

Lemma filter_none {A} (P : A → Prop) `{∀ x, Decision (P x)} (l : list A) :
  Forall (λ x, ¬ P x) l → filter P l = [].
Proof.
  induction 1 as [|x l Hx Hl IH]; [done|].
  rewrite filter_cons, decide_False by done. done.
Qed.


Lemma keep_last_others (l : list Message) :
  Forall (λ m, ¬ is_system m) l → Forall (λ m, ¬ is_system m) (keep_last_occurrence l).
Proof.
  rewrite !Forall_forall. intros Hl m Hm. apply Hl.
  eapply elem_of_sublist; [done | apply keep_last_sublist].
Qed.

Lemma others_Forall (l : list Message) :
  Forall (λ m, ¬ is_system m) (filter (λ m, ¬ is_system m) l).
Proof. apply Forall_forall. by intros m [? _]%list_elem_of_filter. Qed.

Lemma system_Forall (l : list Message) : Forall is_system (filter is_system l).
Proof. apply Forall_forall. by intros m [? _]%list_elem_of_filter. Qed.

(** What [_deduplicate_messages] computes, in closed form. *)
Lemma dedup_closed_form (msgs : list Message) :
  _deduplicate_messages msgs
  = (filter is_system msgs
     ++ keep_last_occurrence (filter (λ m, ¬ is_system m) msgs),
     (Z.of_nat (length (filter (λ m, ¬ is_system m) msgs))
      - Z.of_nat (length (keep_last_occurrence
                            (filter (λ m, ¬ is_system m) msgs))))%Z).
Proof.
  unfold _deduplicate_messages. rewrite dedup_fold. simpl.
  by rewrite reverse_involutive.
Qed.

Lemma filter_system_parts (sys others : list Message) :
  Forall is_system sys → Forall (λ m, ¬ is_system m) others →
  filter is_system (sys ++ others) = sys
  ∧ filter (λ m, ¬ is_system m) (sys ++ others) = others.
Proof.
  intros Hs Ho. rewrite !filter_app. split.
  - rewrite (filter_idemp is_system sys Hs), (filter_none is_system others Ho).
    apply app_nil_r.
  - rewrite (filter_idemp _ others Ho).
    rewrite (filter_none (λ m, ¬ is_system m) sys); [done|].
    eapply Forall_impl; [exact Hs|]. intros m Hm Hn. by apply Hn.
Qed.

End dedup_facts.

(** C4.  [_deduplicate_messages] answers the system messages of the input,
    all of them and in their order, followed by the survivors among the other
    messages.  The survivors are a subsequence of the other messages of the
    input, so they stand in chronological order; no two of them have the same
    content; every content of the other messages is the content of one of
    them; and each of them is the last message of the input with its content.
    The count answered is the number of other messages that went away. *)
Theorem dedup_keeps_last (msgs : list Message) :
  ∃ survivors,
    (_deduplicate_messages msgs).1 = filter is_system msgs ++ survivors
    ∧ (_deduplicate_messages msgs).2
      = (Z.of_nat (length (filter (λ m, ¬ is_system m) msgs))
         - Z.of_nat (length survivors))%Z
    ∧ survivors `sublist_of` filter (λ m, ¬ is_system m) msgs
    ∧ NoDup (content <$> survivors)
    ∧ (∀ c, c ∈ content <$> survivors
            ↔ c ∈ content <$> filter (λ m, ¬ is_system m) msgs)
    ∧ (∀ m, m ∈ survivors →
        ∃ before after, filter (λ m, ¬ is_system m) msgs = before ++ m :: after
                        ∧ content m ∉ content <$> after)
    ∧ filter is_system (_deduplicate_messages msgs).1 = filter is_system msgs
    ∧ filter (λ m, ¬ is_system m) (_deduplicate_messages msgs).1 = survivors.
Proof.
  exists (keep_last_occurrence (filter (λ m, ¬ is_system m) msgs)).
  rewrite dedup_closed_form. simpl.
  destruct (filter_system_parts (filter is_system msgs)
              (keep_last_occurrence (filter (λ m, ¬ is_system m) msgs)))
    as [Hs Ho]; [apply system_Forall | apply keep_last_others, others_Forall |].
  repeat split; try done.
  - apply keep_last_sublist.
  - apply keep_last_NoDup.
  - by apply keep_last_contents.
  - by apply keep_last_contents.
  - apply keep_last_is_last.
Qed.

Section cleanup_facts.

Lemma cleanup_closed_form (max_messages : Z) (msgs : list Message) :
  (cleanup_messages max_messages msgs).1
  = filter is_system msgs
    ++ drop (length (keep_last_occurrence (filter (λ m, ¬ is_system m) msgs))
             - Z.to_nat (max_messages - Z.of_nat (length (filter is_system msgs))))
         (keep_last_occurrence (filter (λ m, ¬ is_system m) msgs)).
Proof.
  unfold cleanup_messages. rewrite dedup_closed_form.
  set (sys := filter is_system msgs).
  set (surv := keep_last_occurrence (filter (λ m, ¬ is_system m) msgs)).
  destruct (filter_system_parts sys surv) as [Hs Ho];
    [apply system_Forall | apply keep_last_others, others_Forall |].
  cbv beta iota. rewrite Hs, Ho, length_app.
  destruct (Z.gtb_spec (Z.of_nat (length sys + length surv)) max_messages) as [Hgt|Hle];
    simpl.
  - f_equal. destruct (Z.gtb_spec (max_messages - Z.of_nat (length sys)) 0) as [Hk|Hk].
    + reflexivity.
    + symmetry. apply drop_ge. lia.
  - f_equal. replace (length surv - _) with 0 by lia. reflexivity.
Qed.

Context (now : Q) (expire_seconds max_messages : Z).

Lemma swept_step_sessions acc uid s :
  sessions (sw_state (swept_step now expire_seconds max_messages acc (uid, s)))
  = if is_idle now expire_seconds s then sessions (sw_state acc)
    else <[uid := cleaned max_messages s]> (sessions (sw_state acc)).
Proof.
  unfold swept_step, cleaned. destruct (is_idle now expire_seconds s); [done|].
  destruct (cleanup_messages max_messages (messages s)) as [new n]. simpl.
  case_decide; reflexivity.
Qed.

Lemma swept_step_expired acc uid s :
  expired_users (swept_step now expire_seconds max_messages acc (uid, s))
  = if is_idle now expire_seconds s then expired_users acc ++ [uid]
    else expired_users acc.
Proof.
  unfold swept_step. destruct (is_idle now expire_seconds s); [done|].
  destruct (cleanup_messages max_messages (messages s)) as [new n]. reflexivity.
Qed.

Lemma sweep_sessions_lookup (l : list (string * Session)) acc uid :
  NoDup l.*1 →
  sessions (sw_state (foldl (swept_step now expire_seconds max_messages) acc l)) !! uid
  = match (list_to_map l : gmap string Session) !! uid with
    | Some s => if is_idle now expire_seconds s then sessions (sw_state acc) !! uid
                else Some (cleaned max_messages s)
    | None => sessions (sw_state acc) !! uid
    end.
Proof.
  revert acc. induction l as [|[k s] l IH]; intros acc Hnd; [done|].
  rewrite fmap_cons in Hnd. apply NoDup_cons in Hnd as [Hk Hnd]. simpl in Hk.
  change (foldl (swept_step now expire_seconds max_messages) acc ((k, s) :: l))
    with (foldl (swept_step now expire_seconds max_messages)
            (swept_step now expire_seconds max_messages acc (k, s)) l).
  rewrite IH by done. rewrite swept_step_sessions, list_to_map_cons.
  destruct (decide (k = uid)) as [->|Hne].
  - rewrite lookup_insert_eq, (not_elem_of_list_to_map_1 l uid Hk).
    destruct (is_idle now expire_seconds s); [reflexivity|]. apply lookup_insert_eq.
  - rewrite lookup_insert_ne by done.
    destruct (is_idle now expire_seconds s); [reflexivity|].
    rewrite lookup_insert_ne by done. reflexivity.
Qed.

Lemma sweep_expired_elem (l : list (string * Session)) acc uid :
  uid ∈ expired_users (foldl (swept_step now expire_seconds max_messages) acc l) →
  uid ∈ expired_users acc ∨ ∃ s, (uid, s) ∈ l ∧ is_idle now expire_seconds s = true.
Proof.
  revert acc. induction l as [|[k s] l IH]; intros acc; [by left|].
  change (foldl (swept_step now expire_seconds max_messages) acc ((k, s) :: l))
    with (foldl (swept_step now expire_seconds max_messages)
            (swept_step now expire_seconds max_messages acc (k, s)) l).
  intros [Hin|(s2 & Hin & Hidle)]%IH.
  - rewrite swept_step_expired in Hin.
    destruct (is_idle now expire_seconds s) eqn:Hi; [|by left].
    apply elem_of_app in Hin as [Hin|Hin%list_elem_of_singleton]; [by left|].
    subst. right. exists s. split; [left|done].
  - right. exists s2. split; [by right|done].
Qed.

Lemma drop_users_lookup (us : list string) (st : SessionMan) uid :
  uid ∉ us → sessions (foldl drop_user st us) !! uid = sessions st !! uid.
Proof.
  revert st. induction us as [|u us IH]; intros st Hn; [done|].
  apply not_elem_of_cons in Hn as [Hne Hn]. simpl. rewrite IH by done.
  unfold drop_user, set_saved, set_sessions. simpl. by rewrite lookup_delete_ne.
Qed.

(** A session that is not idle comes out of the pass with the messages that
    [cleanup_messages] leaves. *)
Lemma clean_pass_lookup (st : SessionMan) uid s :
  sessions st !! uid = Some s → is_idle now expire_seconds s = false →
  sessions (clean_pass now expire_seconds max_messages st).2 !! uid
  = Some (cleaned max_messages s).
Proof.
  intros Hs Hidle. unfold clean_pass. simpl.
  rewrite drop_users_lookup.
  - rewrite sweep_sessions_lookup by apply NoDup_fst_map_to_list.
    rewrite list_to_map_to_list, Hs, Hidle. done.
  - intros [Hin|(s2 & Hin & Hi)]%sweep_expired_elem.
    + by apply elem_of_nil in Hin.
    + apply elem_of_map_to_list in Hin. congruence.
Qed.

Variable env : KimiCacheMan.Env.

(** The body of the loop, run on the variables [acc]. *)
Lemma sweep_step_run acc uid s :
  sweep_step env now expire_seconds max_messages (uid, s) acc
  = if is_idle now expire_seconds s
    then (Ret tt, swept_step now expire_seconds max_messages acc (uid, s))
    else if decide (shortened max_messages s) then
      match KimiCacheMan.snapshot_error env (user_id s) with
      | None => (Ret tt, swept_step now expire_seconds max_messages acc (uid, s))
      | Some e =>
        (Raise e,
         {| sw_state := set_sessions (insert uid (cleaned max_messages s)) (sw_state acc);
            expired_users := expired_users acc;
            total_cleaned_messages :=
              (total_cleaned_messages acc
               + (cleanup_messages max_messages (messages s)).2)%Z |})
      end
    else (Ret tt, swept_step now expire_seconds max_messages acc (uid, s)).
Proof.
  unfold sweep_step, swept_step, shortened, cleaned.
  destruct (is_idle now expire_seconds s); [reflexivity|].
  destruct (cleanup_messages max_messages (messages s)) as [new n]. simpl.
  unfold bind, modify, lift_sweep, _save_session, set_sw_state, raise, ret. simpl.
  case_decide; [|reflexivity].
  destruct (KimiCacheMan.snapshot_error env (user_id s)); reflexivity.
Qed.

(** Whatever becomes of the snapshot, the body of the loop leaves a session
    that is not idle in the table with its messages cleaned up. *)
Lemma sweep_step_sessions acc uid s :
  sessions (sw_state (sweep_step env now expire_seconds max_messages (uid, s) acc).2)
  = if is_idle now expire_seconds s then sessions (sw_state acc)
    else <[uid := cleaned max_messages s]> (sessions (sw_state acc)).
Proof.
  rewrite sweep_step_run.
  destruct (is_idle now expire_seconds s) eqn:Hidle.
  { cbn [snd]. by rewrite swept_step_sessions, Hidle. }
  case_decide as Hsh.
  - destruct (KimiCacheMan.snapshot_error env (user_id s)); cbn [snd].
    + reflexivity.
    + by rewrite swept_step_sessions, Hidle.
  - cbn [snd]. by rewrite swept_step_sessions, Hidle.
Qed.

Lemma sweep_step_processed acc uid s :
  is_idle now expire_seconds s = false →
  sessions (sw_state (sweep_step env now expire_seconds max_messages (uid, s) acc).2) !! uid
  = Some (cleaned max_messages s).
Proof.
  intros Hidle. rewrite sweep_step_sessions, Hidle. apply lookup_insert_eq.
Qed.

(** The body of the loop touches neither the cache manager nor the time of
    the last cleanup, and it removes no snapshot. *)
Lemma sweep_step_rest acc uid s :
  cache_man (sw_state (sweep_step env now expire_seconds max_messages (uid, s) acc).2)
  = cache_man (sw_state acc)
  ∧ _last_cleanup
      (sw_state (sweep_step env now expire_seconds max_messages (uid, s) acc).2)
    = _last_cleanup (sw_state acc).
Proof.
  rewrite sweep_step_run. unfold swept_step.
  destruct (is_idle now expire_seconds s); [done|].
  destruct (cleanup_messages max_messages (messages s)) as [new n] eqn:Hc.
  case_decide as Hsh.
  - destruct (KimiCacheMan.snapshot_error env (user_id s)); cbn [snd]; [done|].
    simpl. by case_decide.
  - simpl. by case_decide.
Qed.

(** The loop comes to its end when every snapshot that is due can be
    written. *)
Lemma sweep_loop_writable (l : list (string * Session)) acc :
  Forall (λ kv, round_writable env now expire_seconds max_messages kv.2) l →
  for_each (sweep_step env now expire_seconds max_messages) l acc
  = (Ret tt, foldl (swept_step now expire_seconds max_messages) acc l).
Proof.
  revert acc. induction l as [|[k s] l IH]; intros acc Hall; [reflexivity|].
  apply Forall_cons in Hall as [Hw Hall]. simpl in Hw.
  cbn [for_each foldl]. unfold bind at 1. rewrite sweep_step_run.
  destruct (is_idle now expire_seconds s) eqn:Hidle; [by apply IH|].
  case_decide as Hsh; [|by apply IH].
  rewrite (Hw Hidle Hsh). by apply IH.
Qed.

(** And only then. *)
Lemma sweep_loop_returns (l : list (string * Session)) acc acc' :
  for_each (sweep_step env now expire_seconds max_messages) l acc = (Ret tt, acc') →
  Forall (λ kv, round_writable env now expire_seconds max_messages kv.2) l.
Proof.
  revert acc. induction l as [|[k s] l IH]; intros acc Hrun; [constructor|].
  cbn [for_each] in Hrun. unfold bind at 1 in Hrun. rewrite sweep_step_run in Hrun.
  destruct (is_idle now expire_seconds s) eqn:Hidle.
  { constructor; [|by eapply IH]. intros Hi. simpl in Hi. congruence. }
  case_decide as Hsh.
  - destruct (KimiCacheMan.snapshot_error env (user_id s)) as [e|] eqn:Hw; [discriminate|].
    constructor; [|by eapply IH]. intros _ _. exact Hw.
  - constructor; [|by eapply IH]. intros _ Hsh'. done.
Qed.

(** The loop takes no lock. *)
Lemma sweep_loop_not_blocked (l : list (string * Session)) acc :
  (for_each (sweep_step env now expire_seconds max_messages) l acc).1 ≠ Blocked.
Proof.
  revert acc. induction l as [|[k s] l IH]; intros acc; [done|].
  cbn [for_each]. unfold bind at 1. rewrite sweep_step_run.
  destruct (is_idle now expire_seconds s); [apply IH|].
  case_decide; [|apply IH].
  destruct (KimiCacheMan.snapshot_error env (user_id s)); [done | apply IH].
Qed.

Lemma snapshots_writable_items (st : SessionMan) :
  snapshots_writable env now expire_seconds max_messages st
  ↔ Forall (λ kv, round_writable env now expire_seconds max_messages kv.2)
      (map_to_list (sessions st)).
Proof.
  rewrite Forall_forall. split.
  - intros Hw [k s] Hin%elem_of_map_to_list. by apply (Hw k).
  - intros Hall k s Hs. apply (Hall (k, s)). by apply elem_of_map_to_list.
Qed.

(** [clear_expired_sessions] returns when every snapshot that is due can be
    written, and is then the pass [clean_pass]. *)
Lemma clear_expired_sessions_writable (st : SessionMan) :
  snapshots_writable env now expire_seconds max_messages st →
  clear_expired_sessions env now expire_seconds max_messages st
  = clean_pass now expire_seconds max_messages st.
Proof.
  intros Hw%snapshots_writable_items. unfold clear_expired_sessions, clean_pass.
  cbv zeta. rewrite sweep_loop_writable by done. reflexivity.
Qed.

Lemma clear_expired_sessions_returns (st st' : SessionMan) res :
  clear_expired_sessions env now expire_seconds max_messages st = (Ret res, st') →
  snapshots_writable env now expire_seconds max_messages st
  ∧ clean_pass now expire_seconds max_messages st = (Ret res, st').
Proof.
  intros Hrun.
  assert (Hw : snapshots_writable env now expire_seconds max_messages st).
  { apply snapshots_writable_items. unfold clear_expired_sessions in Hrun.
    cbv zeta in Hrun.
    destruct (for_each _ _ _) as [[[]| |] swept] eqn:Hloop; try discriminate.
    by eapply sweep_loop_returns. }
  split; [done|]. by rewrite <- clear_expired_sessions_writable.
Qed.

(** An exception of the loop is the one of a snapshot that was due. *)
Lemma sweep_loop_raises (l : list (string * Session)) acc acc' e :
  for_each (sweep_step env now expire_seconds max_messages) l acc = (Raise e, acc') →
  ∃ k s, (k, s) ∈ l ∧ is_idle now expire_seconds s = false
         ∧ shortened max_messages s
         ∧ KimiCacheMan.snapshot_error env (user_id s) = Some e.
Proof.
  revert acc. induction l as [|[k s] l IH]; intros acc Hrun; [discriminate|].
  cbn [for_each] in Hrun. unfold bind at 1 in Hrun. rewrite sweep_step_run in Hrun.
  assert (Hrest : ∀ acc1,
    for_each (sweep_step env now expire_seconds max_messages) l acc1 = (Raise e, acc') →
    ∃ k' s', (k', s') ∈ (k, s) :: l ∧ is_idle now expire_seconds s' = false
             ∧ shortened max_messages s'
             ∧ KimiCacheMan.snapshot_error env (user_id s') = Some e).
  { intros acc1 (k' & s' & Hin & ?)%IH. exists k', s'. split; [by right|done]. }
  destruct (is_idle now expire_seconds s) eqn:Hidle; [by eapply Hrest|].
  case_decide as Hsh; [|by eapply Hrest].
  destruct (KimiCacheMan.snapshot_error env (user_id s)) as [e'|] eqn:Hw;
    [|by eapply Hrest].
  injection Hrun as <- _. exists k, s. split; [left|done].
Qed.

(** However the loop ends, a session of the table is then as it was or
    cleaned up. *)
Lemma sweep_loop_lookup (l : list (string * Session)) acc uid :
  let acc' := (for_each (sweep_step env now expire_seconds max_messages) l acc).2 in
  sessions (sw_state acc') !! uid = sessions (sw_state acc) !! uid
  ∨ ∃ s, (uid, s) ∈ l ∧ is_idle now expire_seconds s = false
         ∧ sessions (sw_state acc') !! uid = Some (cleaned max_messages s).
Proof.
  revert acc. induction l as [|[k s] l IH]; intros acc; [by left|].
  cbn [for_each]. cbv zeta. unfold bind at 1 2.
  pose proof (sweep_step_sessions acc k s) as Hstep.
  destruct (sweep_step env now expire_seconds max_messages (k, s) acc)
    as [[[]|e|] acc1] eqn:Hrun; cbn [snd] in Hstep.
  - destruct (IH acc1) as [Hsame|(s' & Hin & Hidle' & Hlook)].
    + cbv zeta in Hsame. rewrite Hsame, Hstep.
      destruct (is_idle now expire_seconds s) eqn:Hidle; [by left|].
      destruct (decide (k = uid)) as [->|Hne].
      * right. exists s. rewrite lookup_insert_eq. split; [left|done].
      * left. by rewrite lookup_insert_ne.
    + right. exists s'. split; [by right|done].
  - cbn [snd]. rewrite Hstep.
    destruct (is_idle now expire_seconds s) eqn:Hidle; [by left|].
    destruct (decide (k = uid)) as [->|Hne].
    + right. exists s. rewrite lookup_insert_eq. split; [left|done].
    + left. by rewrite lookup_insert_ne.
  - cbn [snd]. rewrite Hstep.
    destruct (is_idle now expire_seconds s) eqn:Hidle; [by left|].
    destruct (decide (k = uid)) as [->|Hne].
    + right. exists s. rewrite lookup_insert_eq. split; [left|done].
    + left. by rewrite lookup_insert_ne.
Qed.

Lemma sweep_loop_rest (l : list (string * Session)) acc :
  let acc' := (for_each (sweep_step env now expire_seconds max_messages) l acc).2 in
  cache_man (sw_state acc') = cache_man (sw_state acc)
  ∧ _last_cleanup (sw_state acc') = _last_cleanup (sw_state acc).
Proof.
  revert acc. induction l as [|[k s] l IH]; intros acc; [done|].
  cbn [for_each]. cbv zeta. unfold bind at 1 2.
  pose proof (sweep_step_rest acc k s) as [Hc Hl].
  destruct (sweep_step env now expire_seconds max_messages (k, s) acc)
    as [[[]|e|] acc1] eqn:Hrun; cbn [snd] in Hc, Hl |- *; [|done|done].
  destruct (IH acc1) as [Hc1 Hl1]. cbv zeta in Hc1, Hl1. by rewrite Hc1, Hl1.
Qed.

(** Otherwise it raises: it never waits. *)
Lemma clear_expired_sessions_not_blocked (st : SessionMan) :
  (clear_expired_sessions env now expire_seconds max_messages st).1 ≠ Blocked.
Proof.
  unfold clear_expired_sessions. cbv zeta.
  pose proof (sweep_loop_not_blocked (map_to_list (sessions st))
    {| sw_state := st; expired_users := []; total_cleaned_messages := 0 |}) as Hnb.
  destruct (for_each _ _ _) as [[[]| |] swept]; simpl in *; done.
Qed.

End cleanup_facts.

(** C5.  A session that is not idle and that the pass of
    [clear_expired_sessions] gets to is left with at most
    [max(max_messages, systemCount)] messages: all its system messages,
    followed by the [max_messages - systemCount] most recent of its
    deduplicated other messages, none when [systemCount >= max_messages].
    This is the session that the body of the loop puts into the table,
    whether or not its snapshot can then be written, and the session found
    in the table after every pass that returns; the pass returns when every
    snapshot that is due can be written.  With two system messages,
    [max_messages = 5] and ten other messages of distinct contents, the two
    system messages and the last three others remain. *)
Theorem cleanup_truncation_bound (env : KimiCacheMan.Env) (now : Q)
    (expire_seconds max_messages : Z) (st : SessionMan) (uid : string) (s : Session) :
  sessions st !! uid = Some s → is_idle now expire_seconds s = false →
  let system := filter is_system (messages s) in
  let others := filter (λ m, ¬ is_system m) (messages s) in
  let recent := filter (λ m, ¬ is_system m) (_deduplicate_messages (messages s)).1 in
  ∃ s',
    (∀ acc,
       sessions (sw_state (sweep_step env now expire_seconds max_messages (uid, s) acc).2)
         !! uid = Some s')
    ∧ (∀ res st',
         clear_expired_sessions env now expire_seconds max_messages st = (Ret res, st') →
         sessions st' !! uid = Some s')
    ∧ (snapshots_writable env now expire_seconds max_messages st →
       ∃ res st',
         clear_expired_sessions env now expire_seconds max_messages st = (Ret res, st'))
    ∧ (Z.of_nat (length (messages s'))
       ≤ Z.max max_messages (Z.of_nat (length system)))%Z
    ∧ filter is_system (messages s') = system
    ∧ filter (λ m, ¬ is_system m) (messages s')
      = drop (length recent - Z.to_nat (max_messages - Z.of_nat (length system))) recent
    ∧ messages s' = system ++ filter (λ m, ¬ is_system m) (messages s')
    ∧ ((max_messages ≤ Z.of_nat (length system))%Z →
       filter (λ m, ¬ is_system m) (messages s') = [])
    ∧ (length system = 2 → max_messages = 5%Z → length others = 10 →
       NoDup (content <$> others) →
       messages s' = system ++ drop 7 others).
Proof.
  intros Hs Hidle system others recent.
  exists (cleaned max_messages s).
  split; [intros acc; by apply sweep_step_processed|].
  split.
  { intros res st' [_ Hrun]%clear_expired_sessions_returns.
    change st' with (Ret res, st').2. rewrite <- Hrun. by apply clean_pass_lookup. }
  split.
  { intros Hw. rewrite clear_expired_sessions_writable by done.
    unfold clean_pass. eauto. }
  assert (Hrecent : recent = keep_last_occurrence others).
  { unfold recent. rewrite dedup_closed_form. simpl.
    apply filter_system_parts;
      [apply system_Forall | apply keep_last_others, others_Forall]. }
  assert (Hmsgs : messages (cleaned max_messages s)
    = system ++ drop (length recent
                      - Z.to_nat (max_messages - Z.of_nat (length system))) recent).
  { unfold cleaned. simpl. rewrite cleanup_closed_form. by rewrite Hrecent. }
  assert (Hdrop : Forall (λ m, ¬ is_system m)
    (drop (length recent - Z.to_nat (max_messages - Z.of_nat (length system))) recent)).
  { rewrite Forall_forall. intros m Hm.
    assert (Hin : m ∈ recent) by (eapply elem_of_sublist; [done | apply sublist_drop]).
    rewrite Hrecent in Hin.
    apply (proj1 (Forall_forall _ _) (keep_last_others _ (others_Forall (messages s)))).
    done. }
  destruct (filter_system_parts system _ (system_Forall (messages s)) Hdrop)
    as [Hsys Hoth].
  rewrite Hmsgs, Hsys, Hoth.
  split; [|split; [done|split; [done|split; [done|split]]]].
  - rewrite length_app, length_drop. lia.
  - intros Hge. apply drop_ge. lia.
  - intros H2 -> H10 Hnd. f_equal. rewrite Hrecent, (keep_last_id others Hnd).
    rewrite H2, H10. reflexivity.
Qed.

Lemma cleanup_truncation_bound_witness :
  ∃ res st' s',
    clear_expired_sessions Samples.env 10 100 5 Samples.man_long = (Ret res, st')
    ∧ sessions st' !! "u1" = Some s'
    ∧ messages s' = [Samples.sys "s1"; Samples.sys "s2";
                     Samples.usr "8"; Samples.usr "9"; Samples.usr "10"].
Proof.
  destruct (cleanup_truncation_bound Samples.env 10 100 5 Samples.man_long "u1"
              Samples.long_session eq_refl eq_refl)
    as (s' & _ & Hlook & Hreturns & _ & _ & _ & _ & _ & Hscenario).
  destruct Hreturns as (res & st' & Hrun).
  { intros uid s Hs _ _. cbn [sessions Samples.man_long] in Hs.
    apply lookup_singleton_Some in Hs as [_ <-]. reflexivity. }
  exists res, st', s'. split; [exact Hrun|]. split; [by apply (Hlook res)|].
  apply Hscenario; [reflexivity | reflexivity | reflexivity |].
  apply (bool_decide_unpack _). vm_compute. exact I.
Defined.

Lemma inject_Z_nonzero (z : Z) : z ≠ 0%Z → ¬ (inject_Z z == 0)%Q.
Proof. unfold Qeq, inject_Z. simpl. lia. Qed.

(** C9.  [get_cache_hit_rate] never raises: with no lookups counted it
    answers 0, and otherwise the quotient of the hits by all lookups. *)
Theorem hit_rate_guarded (s : Session) :
  (0 ≤ cache_hit_count s)%Z → (0 ≤ cache_miss_count s)%Z →
  ∃ rate, get_cache_hit_rate s = Ret rate
    ∧ ((cache_hit_count s + cache_miss_count s = 0)%Z → rate = 0%Q)
    ∧ ((cache_hit_count s + cache_miss_count s ≠ 0)%Z →
       rate = (inject_Z (cache_hit_count s)
               / inject_Z (cache_hit_count s + cache_miss_count s))%Q
       ∧ (rate * inject_Z (cache_hit_count s + cache_miss_count s)
          == inject_Z (cache_hit_count s))%Q).
Proof.
  intros Hh Hm. unfold get_cache_hit_rate, py_truediv.
  destruct (Z.gtb_spec (cache_hit_count s + cache_miss_count s) 0) as [Hpos|Hzero].
  - rewrite (proj2 (Z.eqb_neq _ _)) by lia.
    eexists. split; [reflexivity|]. split; [lia|]. intros Hne. split; [reflexivity|].
    rewrite Qmult_comm. apply Qmult_div_r. by apply inject_Z_nonzero.
  - eexists. split; [reflexivity|]. split; [done|]. lia.
Qed.

Lemma hit_rate_guarded_witness :
  ∃ rate, get_cache_hit_rate Samples.long_session = Ret rate
    ∧ ((4 + 1 = 0)%Z → rate = 0%Q)
    ∧ ((4 + 1 ≠ 0)%Z →
       rate = (inject_Z 4 / inject_Z (4 + 1))%Q
       ∧ (rate * inject_Z (4 + 1) == inject_Z 4)%Q).
Proof.
  apply (hit_rate_guarded Samples.long_session); simpl; lia.
Defined.

Lemma bind_ret_inv {St A B} (m : prog St A) (k : A → prog St B) (st : St) (v : B) :
  (bind m k st).1 = Ret v → ∃ a st', m st = (Ret a, st') ∧ (k a st').1 = Ret v.
Proof.
  unfold bind. destruct (m st) as [[a| |] st']; simpl; [eauto | done | done].
Qed.

Lemma set_cache_call_rejected a b c d e :
  keywords_bind set_cache_params
    [("file_path", a); ("file_id", b); ("message", c); ("cache_tag", d);
     ("expire_seconds", e)] = false.
Proof. reflexivity. Qed.

(** No call of [add_temp_knowledge] returns. *)
Lemma add_temp_knowledge_never_returns cfg env now uid path expire st v :
  (add_temp_knowledge cfg env now uid path expire st).1 ≠ Ret v.
Proof.
  unfold add_temp_knowledge. intros H.
  apply bind_ret_inv in H as (sb & st1 & _ & H).
  apply bind_ret_inv in H as (cache & st2 & _ & H).
  destruct (truthy_result cache).
  - apply bind_ret_inv in H as (? & st3 & _ & H).
    apply bind_ret_inv in H as (rate & st4 & _ & H).
    apply bind_ret_inv in H as (? & st5 & _ & H).
    by destruct cache.
  - apply bind_ret_inv in H as (? & st3 & _ & H).
    apply bind_ret_inv in H as (? & st4 & H & _).
    unfold lift_cache, call_set_cache in H.
    rewrite set_cache_call_rejected in H. discriminate.
Qed.

(** C3 at four inputs, for a user without a session and a requested lifetime
    of 3600 seconds.  On [a.txt], which is cached, the hit is counted and the
    expiry is moved to [50 + 2 * 3600], but the call ends in [AttributeError]
    where a file identifier should be answered.  On [b.txt], a file that was
    never cached, [get_cache] uploads and stores it without a tag and the call
    goes the same way, counted as a hit.  On a path that is not on disk, and
    on [b.txt] when its record holds expired messages only, the miss is
    counted and the call of [set_cache] ends in [TypeError]: nothing is stored
    under the tag of the user. *)
Theorem add_temp_knowledge_raises :
  let hit := add_temp_knowledge Samples.cfg Samples.env 50 "u1" "a.txt"
               (Some 3600%Z) Samples.man_fresh in
  let fresh := add_temp_knowledge Samples.cfg Samples.env 50 "u1" "b.txt"
                 (Some 3600%Z) Samples.man_fresh in
  let gone := add_temp_knowledge Samples.cfg Samples.env 50 "u1" "gone.txt"
                (Some 3600%Z) Samples.man_fresh in
  let stale := add_temp_knowledge Samples.cfg Samples.env 60 "u1" "b.txt"
                 (Some 3600%Z) Samples.man_stale in
  (hit.1 = Raise AttributeError
   ∧ cache_hit_count <$> sessions hit.2 !! "u1" = Some 1%Z
   ∧ KimiCacheMan.cache_expired_time <$> KimiCacheMan.db (cache_man hit.2) !! "h1"
     = Some (Some 7250%Z))
  ∧ (KimiCacheMan.db (cache_man Samples.man_fresh) !! "h3" = None
     ∧ fresh.1 = Raise AttributeError
     ∧ cache_hit_count <$> sessions fresh.2 !! "u1" = Some 1%Z
     ∧ cache_miss_count <$> sessions fresh.2 !! "u1" = Some 0%Z
     ∧ KimiCacheMan.cache_tag <$> KimiCacheMan.db (cache_man fresh.2) !! "h3"
       = Some None)
  ∧ (gone.1 = Raise TypeError
     ∧ cache_miss_count <$> sessions gone.2 !! "u1" = Some 1%Z
     ∧ filter (λ kv, KimiCacheMan.cache_tag kv.2 = Some "u1")
         (map_to_list (KimiCacheMan.db (cache_man gone.2))) = [])
  ∧ (stale.1 = Raise TypeError
     ∧ cache_miss_count <$> sessions stale.2 !! "u1" = Some 1%Z
     ∧ KimiCacheMan.db (cache_man stale.2) !! "h3" = Some Samples.row_b
     ∧ filter (λ kv, KimiCacheMan.cache_tag kv.2 = Some "u1")
         (map_to_list (KimiCacheMan.db (cache_man stale.2))) = []).
Proof. repeat split; vm_compute; reflexivity. Qed.

(** * More on the content cache *)

Section cache_more.

Import KimiCacheMan.

(** [set_cache] on an existing file with the lock free: the record is
    written, unless its expiry time does not fit the column. *)
Lemma set_cache_outcome env now path h msgs tag ttl note (st : CacheMan) :
  lock_held st = false → file_digest env path = Some h →
  set_cache env now path msgs tag ttl note st
  = if binds_int64 (if truthy_int ttl then Some (now + default 0%Z ttl)%Z else None)
    then (Ret tt,
          set_db (insert h
            {| file_path := path; messages := Some msgs; cache_tag := tag;
               cache_expired_time :=
                 if truthy_int ttl then Some (now + default 0%Z ttl)%Z else None;
               cache_message := note; create_time := now; update_time := now |}) st)
    else (Raise OverflowError, st).
Proof.
  intros Hl Hd. unfold set_cache, _calculate_file_hash. rewrite Hd.
  unfold bind, ret, raise, with_lock, with_conn, insert_cache, modify, set_db. simpl.
  rewrite Hl.
  destruct (binds_int64 _); simpl; [reflexivity|]. by rewrite unlocked_eta.
Qed.

Lemma binds_expiry now (ttl : option Z) :
  (∀ t, ttl = Some t → fits_int64 (now + t) = true) →
  binds_int64 (if truthy_int ttl then Some (now + default 0%Z ttl)%Z else None) = true.
Proof.
  intros Hfit. destruct ttl as [t|]; [|reflexivity]. simpl.
  destruct (negb (t =? 0)%Z); [|reflexivity]. simpl. by apply Hfit.
Qed.

Lemma set_cache_unlocked env now path h msgs tag ttl note (st : CacheMan) :
  lock_held st = false → file_digest env path = Some h →
  (∀ t, ttl = Some t → fits_int64 (now + t) = true) →
  set_cache env now path msgs tag ttl note st
  = (Ret tt,
     set_db (insert h
       {| file_path := path; messages := Some msgs; cache_tag := tag;
          cache_expired_time :=
            if truthy_int ttl then Some (now + default 0%Z ttl)%Z else None;
          cache_message := note; create_time := now; update_time := now |}) st).
Proof.
  intros Hl Hd Hfit. rewrite (set_cache_outcome env now path h) by done.
  by rewrite binds_expiry.
Qed.

Lemma remove_cache_unlocked h (st : CacheMan) :
  lock_held st = false → remove_cache h st = (Ret tt, set_db (delete h) st).
Proof.
  intros Hl. unfold remove_cache, with_lock, with_conn, modify, set_db. simpl.
  rewrite Hl. reflexivity.
Qed.

Lemma clear_expired_cache_unlocked now (st : CacheMan) :
  lock_held st = false →
  clear_expired_cache now st
  = (Ret (Z.of_nat (size (filter (λ kv, is_stale now kv.2) (db st)))),
     set_db (filter (λ kv, ¬ is_stale now kv.2)) st).
Proof.
  intros Hl. unfold clear_expired_cache, with_lock, with_conn, bind, gets, modify, ret.
  simpl. rewrite Hl. simpl. unfold set_db. simpl. rewrite Hl. reflexivity.
Qed.

Lemma refresh_cache_unlocked env now delta path h (st : CacheMan) :
  lock_held st = false → file_digest env path = Some h →
  refresh_cache env now path delta st
  = match db st !! h with
    | Some r =>
      if fits_int64 (now + delta)
      then (Ret true, set_db (insert h (update_expiry (now + delta) now r)) st)
      else (Raise OverflowError, st)
    | None => (Ret false, st)
    end.
Proof.
  intros Hl Hd. unfold refresh_cache, _calculate_file_hash. rewrite Hd.
  unfold bind, ret, raise, with_lock, with_conn, select_by_hash, gets, modify, set_db.
  simpl. rewrite Hl. simpl. destruct (db st !! h); simpl.
  - destruct (fits_int64 (now + delta)); simpl; [reflexivity|].
    by rewrite unlocked_eta.
  - by rewrite unlocked_eta.
Qed.

(** X1.  [remove_cache] deletes the record of the hash and no other; on a hash
    that has no record it changes nothing, and removing twice is the same as
    removing once. *)
Theorem remove_cache_idempotent (h : string) (st : CacheMan) :
  lock_held st = false →
  ∃ st', remove_cache h st = (Ret tt, st')
    ∧ lock_held st' = false
    ∧ db st' !! h = None
    ∧ (∀ h', h' ≠ h → db st' !! h' = db st !! h')
    ∧ (db st !! h = None → st' = st)
    ∧ remove_cache h st' = (Ret tt, st').
Proof.
  intros Hl. exists (set_db (delete h) st).
  split; [by apply remove_cache_unlocked|].
  split; [done|]. split; [apply lookup_delete_eq|].
  split; [intros h' Hne; by apply lookup_delete_ne|]. split.
  - intros Hnone. destruct st as [d l]. unfold set_db. simpl in *.
    by rewrite delete_id.
  - rewrite remove_cache_unlocked by done. f_equal.
    unfold set_db. simpl. by rewrite delete_delete_eq.
Qed.

Lemma remove_cache_idempotent_witness :
  ∃ st', remove_cache "h1" Samples.cache_a = (Ret tt, st')
    ∧ lock_held st' = false
    ∧ db st' !! "h1" = None
    ∧ (∀ h', h' ≠ "h1" → db st' !! h' = db Samples.cache_a !! h')
    ∧ (db Samples.cache_a !! "h1" = None → st' = Samples.cache_a)
    ∧ remove_cache "h1" st' = (Ret tt, st').
Proof. apply (remove_cache_idempotent "h1" Samples.cache_a). reflexivity. Defined.

(** X2.  What [set_cache] stores with a lifetime other than 0, whose end
    [now + ttl] fits the 64 bits of the column, is what [get_cache_info] and
    [get_cache] read back until the lifetime is over: the hash, the path, the
    tag, the note, the expiry [now + ttl], both times equal to [now], and
    the messages that have not expired at the time of the read.  The other
    records are not touched. *)
Theorem set_cache_then_info (env : Env) (now later ttl : Z) (path h : string)
    (msgs : list CacheMessage) (tag note : option string) (st : CacheMan) :
  lock_held st = false → file_digest env path = Some h →
  ttl ≠ 0%Z → fits_int64 (now + ttl) = true → (later ≤ now + ttl)%Z →
  ∃ st', set_cache env now path msgs tag (Some ttl) note st = (Ret tt, st')
    ∧ (∀ h', h' ≠ h → db st' !! h' = db st !! h')
    ∧ get_cache_info env later path st'
      = (Ret (Some {| info_file_hash := h; info_file_path := path;
                      info_messages := filter (λ m, ¬ is_expired later m) msgs;
                      info_cache_tag := tag;
                      info_cache_expired_time := Some (now + ttl)%Z;
                      info_cache_message := note;
                      info_create_time := now; info_update_time := now |}), st')
    ∧ get_cache env later path st'
      = (Ret (GMessages (filter (λ m, ¬ is_expired later m) msgs)), st').
Proof.
  intros Hl Hd Hnz Hfit Hle.
  pose (r := {| file_path := path; messages := Some msgs; cache_tag := tag;
                cache_expired_time := Some (now + ttl)%Z; cache_message := note;
                create_time := now; update_time := now |}).
  exists (set_db (insert h r) st).
  assert (Htr : truthy_int (Some ttl) = true).
  { simpl. by apply negb_true_iff, Z.eqb_neq. }
  assert (Hlook : db (set_db (insert h r) st) !! h = Some r) by apply lookup_insert_eq.
  split; [|split; [|split]].
  - rewrite (set_cache_unlocked env now path h); [by rewrite Htr | done | done |].
    by intros t [= <-].
  - intros h' Hne. by apply lookup_insert_ne.
  - apply (get_cache_info_live env later path h r); try done.
    by apply past_expiry_false.
  - by apply (get_cache_found env later path h r).
Qed.

Lemma set_cache_then_info_witness :
  ∃ st', set_cache Samples.env 10 "a.txt" [Samples.live_msg; Samples.old_msg] (Some "t")
           (Some 5%Z) None Samples.cache_empty = (Ret tt, st')
    ∧ (∀ h', h' ≠ "h1" → db st' !! h' = db Samples.cache_empty !! h')
    ∧ get_cache_info Samples.env 15 "a.txt" st'
      = (Ret (Some {| info_file_hash := "h1"; info_file_path := "a.txt";
                      info_messages := filter (λ m, ¬ is_expired 15 m)
                                         [Samples.live_msg; Samples.old_msg];
                      info_cache_tag := Some "t";
                      info_cache_expired_time := Some (10 + 5)%Z;
                      info_cache_message := None;
                      info_create_time := 10; info_update_time := 10 |}), st')
    ∧ get_cache Samples.env 15 "a.txt" st'
      = (Ret (GMessages (filter (λ m, ¬ is_expired 15 m)
                           [Samples.live_msg; Samples.old_msg])), st').
Proof.
  apply (set_cache_then_info Samples.env 10 15 5 "a.txt" "h1"
           [Samples.live_msg; Samples.old_msg] (Some "t") None Samples.cache_empty);
    [reflexivity | reflexivity | lia | reflexivity | lia].
Defined.


(** X3.  The record belongs to the bytes, not to the path.  Two paths with the
    same digest share one record: of two calls of [set_cache] whose
    lifetimes, where given, end within the 64 bits of the column, the second
    replaces what the first stored (as if the first had never been), the
    table does not grow, and [get_cache] answers the same through either
    path. *)
Theorem same_bytes_one_record (env : Env) (now later : Z) (path1 path2 h : string)
    (msgs1 msgs2 : list CacheMessage) (tag1 tag2 note1 note2 : option string)
    (ttl1 ttl2 : option Z) (st : CacheMan) :
  lock_held st = false →
  file_digest env path1 = Some h → file_digest env path2 = Some h →
  (∀ t, ttl1 = Some t → fits_int64 (now + t) = true) →
  (∀ t, ttl2 = Some t → fits_int64 (now + t) = true) →
  ∃ st1 st2 r,
    set_cache env now path1 msgs1 tag1 ttl1 note1 st = (Ret tt, st1)
    ∧ set_cache env now path2 msgs2 tag2 ttl2 note2 st1 = (Ret tt, st2)
    ∧ st2 = (set_cache env now path2 msgs2 tag2 ttl2 note2 st).2
    ∧ size (db st2) = size (db st1)
    ∧ db st2 !! h = Some r
    ∧ file_path r = path2 ∧ messages r = Some msgs2 ∧ cache_tag r = tag2
    ∧ get_cache env later path1 st2
      = (Ret (GMessages (_deserialize_messages later (Some msgs2))), st2)
    ∧ get_cache env later path2 st2
      = (Ret (GMessages (_deserialize_messages later (Some msgs2))), st2).
Proof.
  intros Hl Hd1 Hd2 Hfit1 Hfit2.
  pose (r1 := {| file_path := path1; messages := Some msgs1; cache_tag := tag1;
                 cache_expired_time :=
                   if truthy_int ttl1 then Some (now + default 0%Z ttl1)%Z else None;
                 cache_message := note1; create_time := now; update_time := now |}).
  pose (r2 := {| file_path := path2; messages := Some msgs2; cache_tag := tag2;
                 cache_expired_time :=
                   if truthy_int ttl2 then Some (now + default 0%Z ttl2)%Z else None;
                 cache_message := note2; create_time := now; update_time := now |}).
  exists (set_db (insert h r1) st), (set_db (insert h r2) (set_db (insert h r1) st)), r2.
  assert (Hlook : db (set_db (insert h r2) (set_db (insert h r1) st)) !! h = Some r2)
    by apply lookup_insert_eq.
  split; [by apply set_cache_unlocked|].
  split; [by apply set_cache_unlocked|].
  split.
  { rewrite (set_cache_unlocked env now path2 h) by done.
    unfold set_db. simpl. by rewrite insert_insert_eq. }
  split.
  { unfold set_db. simpl. apply map_size_insert_Some. rewrite lookup_insert_eq. eauto. }
  split; [done|]. split; [done|]. split; [done|]. split; [done|]. split.
  - by apply (get_cache_found env later path1 h r2).
  - by apply (get_cache_found env later path2 h r2).
Qed.

Lemma same_bytes_one_record_witness :
  ∃ st1 st2 r,
    set_cache MoreSamples.env_alias 5 "a.txt" [Samples.live_msg] None (Some 60%Z) None
      Samples.cache_empty = (Ret tt, st1)
    ∧ set_cache MoreSamples.env_alias 5 "copy.txt" [Samples.old_msg] (Some "t")
        (Some 90%Z) None st1 = (Ret tt, st2)
    ∧ st2 = (set_cache MoreSamples.env_alias 5 "copy.txt" [Samples.old_msg] (Some "t")
               (Some 90%Z) None Samples.cache_empty).2
    ∧ size (db st2) = size (db st1)
    ∧ db st2 !! "h1" = Some r
    ∧ file_path r = "copy.txt" ∧ messages r = Some [Samples.old_msg]
    ∧ cache_tag r = Some "t"
    ∧ get_cache MoreSamples.env_alias 9 "a.txt" st2
      = (Ret (GMessages (_deserialize_messages 9 (Some [Samples.old_msg]))), st2)
    ∧ get_cache MoreSamples.env_alias 9 "copy.txt" st2
      = (Ret (GMessages (_deserialize_messages 9 (Some [Samples.old_msg]))), st2).
Proof.
  apply (same_bytes_one_record MoreSamples.env_alias 5 9 "a.txt" "copy.txt" "h1");
    try reflexivity; intros t [= <-]; reflexivity.
Defined.

(** X4.  A path that is not on disk: the reads answer [None] and the writes raise
    [FileNotFoundError], whatever the state of the lock, and nothing
    changes. *)
Theorem missing_file_outcomes (env : Env) (now later : Z) (path : string)
    (msgs : list CacheMessage) (tag note : option string) (ttl : option Z)
    (delta : Z) (role content : string) (st : CacheMan) :
  file_digest env path = None →
  get_cache env now path st = (Ret GNone, st)
  ∧ get_cache_info env now path st = (Ret None, st)
  ∧ set_cache env now path msgs tag ttl note st = (Raise FileNotFoundError, st)
  ∧ refresh_cache env now path delta st = (Raise FileNotFoundError, st)
  ∧ KimiCacheEdit.add_message env now path role content ttl st = (Ret false, st)
  ∧ KimiCacheEdit.clear_expired_messages env now later path st = (Ret 0%Z, st).
Proof.
  intros Hd.
  assert (Hinfo : get_cache_info env now path st = (Ret None, st)).
  { unfold get_cache_info, path_exists. by rewrite Hd. }
  split; [unfold get_cache, path_exists; by rewrite Hd|].
  split; [done|].
  split; [unfold set_cache, _calculate_file_hash; by rewrite Hd|].
  split; [unfold refresh_cache, _calculate_file_hash; by rewrite Hd|].
  split.
  - unfold KimiCacheEdit.add_message, bind. by rewrite Hinfo.
  - unfold KimiCacheEdit.clear_expired_messages, bind. by rewrite Hinfo.
Qed.

Lemma missing_file_outcomes_witness :
  get_cache Samples.env 1 "gone.txt" Samples.cache_a = (Ret GNone, Samples.cache_a)
  ∧ get_cache_info Samples.env 1 "gone.txt" Samples.cache_a = (Ret None, Samples.cache_a)
  ∧ set_cache Samples.env 1 "gone.txt" [] None None None Samples.cache_a
    = (Raise FileNotFoundError, Samples.cache_a)
  ∧ refresh_cache Samples.env 1 "gone.txt" 60 Samples.cache_a
    = (Raise FileNotFoundError, Samples.cache_a)
  ∧ KimiCacheEdit.add_message Samples.env 1 "gone.txt" "user" "hi" None Samples.cache_a
    = (Ret false, Samples.cache_a)
  ∧ KimiCacheEdit.clear_expired_messages Samples.env 1 2 "gone.txt" Samples.cache_a
    = (Ret 0%Z, Samples.cache_a).
Proof.
  apply (missing_file_outcomes Samples.env 1 2 "gone.txt" [] None None None 60
           "user" "hi" Samples.cache_a).
  reflexivity.
Defined.

(** X5.  The first [get_cache] of a file uploads it and stores what came back,
    without a tag and without an expiry; from then on every [get_cache] of
    the file answers the stored message and the remote API is not needed. *)
Theorem get_cache_ingests_once (env : Env) (now : Z) (path h text : string)
    (st : CacheMan) :
  lock_held st = false → file_digest env path = Some h →
  db st !! h = None → file_extract env path = Some text →
  let m := {| role := "system"; content := text; expired_time := None |} in
  ∃ st' r,
    get_cache env now path st = (Ret (GMessages [m]), st')
    ∧ lock_held st' = false
    ∧ db st' !! h = Some r
    ∧ file_path r = path ∧ messages r = Some [m]
    ∧ cache_tag r = None ∧ cache_expired_time r = None
    ∧ (∀ h', h' ≠ h → db st' !! h' = db st !! h')
    ∧ ∀ env' later, file_digest env' path = Some h →
        get_cache env' later path st' = (Ret (GMessages [m]), st').
Proof.
  intros Hl Hd Hnone Hx m.
  pose (r := {| file_path := path; messages := Some [m]; cache_tag := None;
                cache_expired_time := None; cache_message := None;
                create_time := now; update_time := now |}).
  exists (set_db (insert h r) st), r.
  assert (Hlook : db (set_db (insert h r) st) !! h = Some r) by apply lookup_insert_eq.
  split.
  { rewrite (get_cache_missing env now path h st Hl Hd Hnone).
    unfold upload_files. simpl. rewrite Hx. reflexivity. }
  split; [done|]. split; [done|]. split; [done|]. split; [done|].
  split; [done|]. split; [done|].
  split; [intros h' Hne; by apply lookup_insert_ne|].
  intros env' later Hd'.
  by apply (get_cache_found env' later path h r).
Qed.

Lemma get_cache_ingests_once_witness :
  let m := {| role := "system"; content := "text"; expired_time := None |} in
  ∃ st' r,
    get_cache Samples.env 3 "b.txt" Samples.cache_a = (Ret (GMessages [m]), st')
    ∧ lock_held st' = false
    ∧ db st' !! "h3" = Some r
    ∧ file_path r = "b.txt" ∧ messages r = Some [m]
    ∧ cache_tag r = None ∧ cache_expired_time r = None
    ∧ (∀ h', h' ≠ "h3" → db st' !! h' = db Samples.cache_a !! h')
    ∧ ∀ env' later, file_digest env' "b.txt" = Some "h3" →
        get_cache env' later "b.txt" st' = (Ret (GMessages [m]), st').
Proof.
  apply (get_cache_ingests_once Samples.env 3 "b.txt" "h3" "text" Samples.cache_a);
    reflexivity.
Defined.

Lemma stale_split (now : Z) (m : gmap string Row) :
  size (filter (λ kv : string * Row, is_stale now kv.2) m)
  + size (filter (λ kv : string * Row, ¬ is_stale now kv.2) m) = size m.
Proof.
  rewrite <- map_size_disj_union by apply map_disjoint_filter_complement.
  by rewrite map_filter_union_complement.
Qed.

(** X6.  [clear_expired_cache] deletes the records whose expiry is set and
    strictly before [now], and only those; it answers how many they were. *)
Theorem clear_expired_cache_exact (now : Z) (st : CacheMan) :
  lock_held st = false →
  ∃ n st', clear_expired_cache now st = (Ret n, st')
    ∧ lock_held st' = false
    ∧ (∀ h r, db st' !! h = Some r
              ↔ db st !! h = Some r
                ∧ ∀ t, cache_expired_time r = Some t → (now ≤ t)%Z)
    ∧ (n = Z.of_nat (size (db st)) - Z.of_nat (size (db st')))%Z
    ∧ (0 ≤ n)%Z.
Proof.
  intros Hl. rewrite clear_expired_cache_unlocked by done.
  eexists _, _. split; [reflexivity|]. split; [done|]. split; [|split].
  - intros h r. unfold set_db. simpl. rewrite map_lookup_filter_Some. simpl.
    unfold is_stale. destruct (cache_expired_time r) as [t|].
    + split.
      * intros [? Hn]. split; [done|]. intros t' [= <-]. lia.
      * intros [? Ht]. split; [done|]. specialize (Ht t eq_refl). lia.
    + split; intros [? _]; (split; [done|]); [intros t; discriminate | tauto].
  - unfold set_db. simpl. pose proof (stale_split now (db st)). lia.
  - lia.
Qed.

Lemma clear_expired_cache_exact_witness :
  ∃ n st', clear_expired_cache 101 Samples.cache_a = (Ret n, st')
    ∧ lock_held st' = false
    ∧ (∀ h r, db st' !! h = Some r
              ↔ db Samples.cache_a !! h = Some r
                ∧ ∀ t, cache_expired_time r = Some t → (101 ≤ t)%Z)
    ∧ (n = Z.of_nat (size (db Samples.cache_a)) - Z.of_nat (size (db st')))%Z
    ∧ (0 ≤ n)%Z.
Proof. apply (clear_expired_cache_exact 101 Samples.cache_a). reflexivity. Defined.

(** X7.  After [clear_expired_cache], [get_cache_info] at the same second finds no
    record past its expiry: it returns, for every path, and does not stop
    in [remove_cache]. *)
Theorem clear_then_info_returns (env : Env) (now : Z) (path : string) (st : CacheMan) :
  lock_held st = false →
  ∃ res, get_cache_info env now path (clear_expired_cache now st).2
         = (Ret res, (clear_expired_cache now st).2).
Proof.
  intros Hl. rewrite clear_expired_cache_unlocked by done. simpl.
  set (st' := set_db _ st).
  assert (Hl' : lock_held st' = false) by done.
  destruct (file_digest env path) as [h|] eqn:Hd.
  - destruct (db st' !! h) as [r|] eqn:Hr.
    + exists (Some (row_info now h r)).
      apply get_cache_info_live; try done.
      apply map_lookup_filter_Some in Hr as [_ Hns]. simpl in Hns.
      unfold is_stale in Hns. destruct (cache_expired_time r) as [t|]; [|done].
      apply past_expiry_false. lia.
    + exists None. by apply (get_cache_info_absent env now path h).
  - exists None. unfold get_cache_info, path_exists. by rewrite Hd.
Qed.

Lemma clear_then_info_returns_witness :
  ∃ res, get_cache_info Samples.env 101 "a.txt" (clear_expired_cache 101 Samples.cache_a).2
         = (Ret res, (clear_expired_cache 101 Samples.cache_a).2).
Proof.
  apply (clear_then_info_returns Samples.env 101 "a.txt" Samples.cache_a). reflexivity.
Defined.

(** X8.  [get_cache_by_tag] answers one entry for each record that carries the
    tag, and nothing else; no two entries have the same hash. *)
Theorem get_cache_by_tag_exact (now : Z) (tag : string) (st : CacheMan) :
  lock_held st = false →
  ∃ infos, get_cache_by_tag now tag st = (Ret infos, st)
    ∧ (∀ info, info ∈ infos
               ↔ ∃ h r, db st !! h = Some r ∧ cache_tag r = Some tag
                        ∧ info = row_info now h r)
    ∧ NoDup (info_file_hash <$> infos).
Proof.
  intros Hl. rewrite get_cache_by_tag_unlocked by done.
  eexists. split; [reflexivity|]. split.
  - intros info. rewrite list_elem_of_fmap. split.
    + intros ([h r] & -> & [Htag Hin%elem_of_map_to_list]%list_elem_of_filter).
      by exists h, r.
    + intros (h & r & Hr & Htag & ->). exists (h, r). split; [done|].
      apply list_elem_of_filter. split; [done|]. by apply elem_of_map_to_list.
  - rewrite <- list_fmap_compose.
    assert (Heq : (info_file_hash ∘ (λ kv : string * Row, row_info now kv.1 kv.2))
                  <$> filter (λ kv, cache_tag kv.2 = Some tag) (map_to_list (db st))
                  = (filter (λ kv, cache_tag kv.2 = Some tag) (map_to_list (db st))).*1).
    { apply list_fmap_ext. by intros ? [? ?]. }
    rewrite Heq.
    eapply sublist_NoDup; [apply (NoDup_fst_map_to_list (db st))|].
    apply fmap_sublist, sublist_filter.
Qed.

Lemma get_cache_by_tag_exact_witness :
  ∃ infos, get_cache_by_tag 7 "alice" Samples.cache_a = (Ret infos, Samples.cache_a)
    ∧ (∀ info, info ∈ infos
               ↔ ∃ h r, db Samples.cache_a !! h = Some r ∧ cache_tag r = Some "alice"
                        ∧ info = row_info 7 h r)
    ∧ NoDup (info_file_hash <$> infos).
Proof. apply (get_cache_by_tag_exact 7 "alice" Samples.cache_a). reflexivity. Defined.

(** X9.  Leaving any operation but [get_cache_info] frees [self.lock]: called
    with the lock free, none of them blocks and each ends with the lock
    free, also when it raises. *)
Theorem lock_released (env : Env) (now : Z) (path h tag : string)
    (msgs : list CacheMessage) (otag note : option string) (ttl : option Z)
    (delta : Z) (st : CacheMan) :
  lock_held st = false →
  came_back (get_cache env now path st)
  ∧ came_back (set_cache env now path msgs otag ttl note st)
  ∧ came_back (remove_cache h st)
  ∧ came_back (refresh_cache env now path delta st)
  ∧ came_back (clear_expired_cache now st)
  ∧ came_back (get_cache_by_tag now tag st).
Proof.
  intros Hl. unfold came_back.
  split; [|split; [|split; [|split; [|split]]]].
  - destruct (file_digest env path) as [h'|] eqn:Hd.
    + destruct (db st !! h') as [r|] eqn:Hr.
      * by rewrite (get_cache_found env now path h' r).
      * rewrite (get_cache_missing env now path h' st Hl Hd Hr).
        unfold upload_files. simpl.
        destruct (file_extract env path); simpl; done.
    + unfold get_cache, path_exists. by rewrite Hd.
  - destruct (file_digest env path) as [h'|] eqn:Hd.
    + rewrite (set_cache_outcome env now path h') by done.
      by destruct (binds_int64 _).
    + unfold set_cache, _calculate_file_hash. by rewrite Hd.
  - by rewrite remove_cache_unlocked.
  - destruct (file_digest env path) as [h'|] eqn:Hd.
    + rewrite (refresh_cache_unlocked env now delta path h') by done.
      destruct (db st !! h'); [|done]. by destruct (fits_int64 (now + delta)).
    + unfold refresh_cache, _calculate_file_hash. by rewrite Hd.
  - by rewrite clear_expired_cache_unlocked.
  - by rewrite get_cache_by_tag_unlocked.
Qed.

Lemma lock_released_witness :
  came_back (get_cache Samples.env_down 1 "b.txt" Samples.cache_a)
  ∧ came_back (set_cache Samples.env_down 1 "b.txt" [] None None None Samples.cache_a)
  ∧ came_back (remove_cache "h1" Samples.cache_a)
  ∧ came_back (refresh_cache Samples.env_down 1 "b.txt" 5 Samples.cache_a)
  ∧ came_back (clear_expired_cache 1 Samples.cache_a)
  ∧ came_back (get_cache_by_tag 1 "alice" Samples.cache_a).
Proof.
  apply (lock_released Samples.env_down 1 "b.txt" "h1" "alice" [] None None None 5
           Samples.cache_a).
  reflexivity.
Defined.

Lemma is_expired_mono now later m :
  (now ≤ later)%Z → is_expired now m = true → is_expired later m = true.
Proof.
  rewrite !is_expired_true. intros Hle (e & He & Hlt). exists e. split; [done|lia].
Qed.

Lemma deserialize_later now later (msgs : list CacheMessage) :
  (now ≤ later)%Z →
  filter (λ m, ¬ is_expired later m) (filter (λ m, ¬ is_expired now m) msgs)
  = filter (λ m, ¬ is_expired later m) msgs.
Proof.
  intros Hle. apply list_filter_filter_l. intros m Hlater Hnow. apply Hlater.
  apply Is_true_true. apply (is_expired_mono now later); [done|].
  by apply Is_true_true.
Qed.

(** X10.  [add_message] on a live record writes the record again through
    [set_cache]: the stored messages become the ones that had not expired,
    followed by the new one; tag and note stay; the old expiry [t], an
    absolute time, is handed to [set_cache] as a number of seconds, so the
    new expiry is [now + t].  This is for a record whose [now + t] fits the
    64 bits of the column. *)
Theorem cache_add_message_rewrites (env : Env) (now : Z) (path h role content : string)
    (ttl : option Z) (r : Row) (st : CacheMan) :
  lock_held st = false → file_digest env path = Some h → db st !! h = Some r →
  past_expiry now (cache_expired_time r) = false →
  (∀ t, cache_expired_time r = Some t → fits_int64 (now + t) = true) →
  ∃ st' r',
    KimiCacheEdit.add_message env now path role content ttl st = (Ret true, st')
    ∧ lock_held st' = false
    ∧ db st' !! h = Some r'
    ∧ messages r'
      = Some (_deserialize_messages now (messages r)
              ++ [ {| role := role; content := content;
                      expired_time := if truthy_int ttl
                                      then Some (now + default 0%Z ttl)%Z
                                      else None |} ])
    ∧ cache_tag r' = cache_tag r ∧ cache_message r' = cache_message r
    ∧ file_path r' = path ∧ create_time r' = now ∧ update_time r' = now
    ∧ (∀ t, cache_expired_time r = Some t → t ≠ 0%Z →
            cache_expired_time r' = Some (now + t)%Z)
    ∧ (truthy_int (cache_expired_time r) = false → cache_expired_time r' = None)
    ∧ ∀ h', h' ≠ h → db st' !! h' = db st !! h'.
Proof.
  intros Hl Hd Hr Hp Hfit. unfold KimiCacheEdit.add_message, bind.
  rewrite (get_cache_info_live env now path h r st) by done.
  rewrite (set_cache_unlocked env now path h) by done. simpl.
  eexists _, _. split; [reflexivity|]. simpl.
  split; [done|]. split; [apply lookup_insert_eq|]. simpl.
  split; [done|]. split; [done|]. split; [done|]. split; [done|].
  split; [done|]. split; [done|]. split; [|split].
  - intros t -> Hnz. simpl. by rewrite (proj2 (Z.eqb_neq t 0) Hnz).
  - by intros ->.
  - intros h' Hne. by apply lookup_insert_ne.
Qed.

Lemma cache_add_message_rewrites_witness :
  ∃ st' r',
    KimiCacheEdit.add_message Samples.env 60 "a.txt" "user" "hi" (Some 5%Z)
      Samples.cache_a = (Ret true, st')
    ∧ lock_held st' = false
    ∧ db st' !! "h1" = Some r'
    ∧ messages r'
      = Some (_deserialize_messages 60 (messages Samples.row_a)
              ++ [ {| role := "user"; content := "hi";
                      expired_time := if truthy_int (Some 5%Z)
                                      then Some (60 + default 0%Z (Some 5%Z))%Z
                                      else None |} ])
    ∧ cache_tag r' = cache_tag Samples.row_a
    ∧ cache_message r' = cache_message Samples.row_a
    ∧ file_path r' = "a.txt" ∧ create_time r' = 60%Z ∧ update_time r' = 60%Z
    ∧ (∀ t, cache_expired_time Samples.row_a = Some t → t ≠ 0%Z →
            cache_expired_time r' = Some (60 + t)%Z)
    ∧ (truthy_int (cache_expired_time Samples.row_a) = false →
       cache_expired_time r' = None)
    ∧ ∀ h', h' ≠ "h1" → db st' !! h' = db Samples.cache_a !! h'.
Proof.
  apply (cache_add_message_rewrites Samples.env 60 "a.txt" "h1" "user" "hi" (Some 5%Z)
           Samples.row_a Samples.cache_a); try reflexivity.
  intros t [= <-]. reflexivity.
Defined.

(** X11.  A file on disk that has no record: [get_cache_info] answers [None],
    [refresh_cache] and [add_message] answer [False],
    [clear_expired_messages] answers 0, and none of them writes a record. *)
Theorem no_record_outcomes (env : Env) (now later delta : Z) (path h role content : string)
    (ttl : option Z) (st : CacheMan) :
  lock_held st = false → file_digest env path = Some h → db st !! h = None →
  get_cache_info env now path st = (Ret None, st)
  ∧ refresh_cache env now path delta st = (Ret false, st)
  ∧ KimiCacheEdit.add_message env now path role content ttl st = (Ret false, st)
  ∧ KimiCacheEdit.clear_expired_messages env now later path st = (Ret 0%Z, st).
Proof.
  intros Hl Hd Hr.
  pose proof (get_cache_info_absent env now path h st Hl Hd Hr) as Hinfo.
  split; [done|]. split.
  - rewrite (refresh_cache_unlocked env now delta path h) by done. by rewrite Hr.
  - split.
    + unfold KimiCacheEdit.add_message, bind. by rewrite Hinfo.
    + unfold KimiCacheEdit.clear_expired_messages, bind. by rewrite Hinfo.
Qed.

Lemma no_record_outcomes_witness :
  get_cache_info Samples.env 1 "b.txt" Samples.cache_a = (Ret None, Samples.cache_a)
  ∧ refresh_cache Samples.env 1 "b.txt" 60 Samples.cache_a = (Ret false, Samples.cache_a)
  ∧ KimiCacheEdit.add_message Samples.env 1 "b.txt" "user" "hi" None Samples.cache_a
    = (Ret false, Samples.cache_a)
  ∧ KimiCacheEdit.clear_expired_messages Samples.env 1 2 "b.txt" Samples.cache_a
    = (Ret 0%Z, Samples.cache_a).
Proof.
  apply (no_record_outcomes Samples.env 1 2 60 "b.txt" "h3" "user" "hi" None
           Samples.cache_a); reflexivity.
Defined.

(** X12.  [clear_expired_messages] counts the messages that expired between its
    two readings of the clock.  When there is none, and always when both
    readings are the same, it answers 0 and writes nothing: messages that had
    expired before the call stay in the table. *)
Theorem clear_expired_messages_keeps (env : Env) (now later : Z) (path h : string)
    (r : Row) (st : CacheMan) :
  lock_held st = false → file_digest env path = Some h → db st !! h = Some r →
  past_expiry now (cache_expired_time r) = false →
  (later = now
   ∨ ∀ m, m ∈ _deserialize_messages now (messages r) → is_expired later m = false) →
  KimiCacheEdit.clear_expired_messages env now later path st = (Ret 0%Z, st).
Proof.
  intros Hl Hd Hr Hp Hsame.
  unfold KimiCacheEdit.clear_expired_messages, bind.
  rewrite (get_cache_info_live env now path h r st) by done.
  unfold row_info. cbn [info_messages info_cache_tag info_cache_expired_time
                        info_cache_message].
  assert (Hall : filter (λ m, ¬ is_expired later m)
                   (_deserialize_messages now (messages r))
                 = _deserialize_messages now (messages r)).
  { apply filter_idemp, Forall_forall. intros m Hm.
    destruct Hsame as [->|Hlive].
    - unfold _deserialize_messages in Hm. destruct (messages r); [|by apply elem_of_nil in Hm].
      by apply list_elem_of_filter in Hm as [? _].
    - rewrite (Hlive m Hm). by intros []. }
  rewrite Hall. rewrite decide_False by lia. unfold ret. f_equal. f_equal. lia.
Qed.

Lemma clear_expired_messages_keeps_witness :
  KimiCacheEdit.clear_expired_messages Samples.env 60 60 "a.txt" Samples.cache_a
  = (Ret 0%Z, Samples.cache_a).
Proof.
  apply (clear_expired_messages_keeps Samples.env 60 60 "a.txt" "h1" Samples.row_a
           Samples.cache_a eq_refl eq_refl eq_refl eq_refl).
  left. reflexivity.
Defined.

(** X13.  When a message of a live record expires between the two readings of the
    clock, [clear_expired_messages] answers how many did, and writes the
    record again with the messages that are live at the second reading.
    The stored expiry [t] of the record goes to [set_cache] as a number of
    seconds; this is for a record whose [later + t] fits the 64 bits of the
    column. *)
Theorem clear_expired_messages_drops (env : Env) (now later : Z) (path h : string)
    (r : Row) (m : CacheMessage) (st : CacheMan) :
  lock_held st = false → file_digest env path = Some h → db st !! h = Some r →
  past_expiry now (cache_expired_time r) = false → (now ≤ later)%Z →
  m ∈ _deserialize_messages now (messages r) → is_expired later m = true →
  (∀ t, cache_expired_time r = Some t → fits_int64 (later + t) = true) →
  ∃ n st' r',
    KimiCacheEdit.clear_expired_messages env now later path st = (Ret n, st')
    ∧ (0 < n)%Z
    ∧ n = (Z.of_nat (length (_deserialize_messages now (messages r)))
           - Z.of_nat (length (_deserialize_messages later (messages r))))%Z
    ∧ db st' !! h = Some r'
    ∧ messages r' = Some (_deserialize_messages later (messages r))
    ∧ cache_tag r' = cache_tag r ∧ cache_message r' = cache_message r
    ∧ ∀ h', h' ≠ h → db st' !! h' = db st !! h'.
Proof.
  intros Hl Hd Hr Hp Hle Hm Hexp Hfit.
  unfold KimiCacheEdit.clear_expired_messages, bind.
  rewrite (get_cache_info_live env now path h r st) by done.
  unfold row_info. cbn [info_messages info_cache_tag info_cache_expired_time
                        info_cache_message].
  assert (Hlater : filter (λ m, ¬ is_expired later m)
                     (_deserialize_messages now (messages r))
                   = _deserialize_messages later (messages r)).
  { unfold _deserialize_messages. destruct (messages r); [|done].
    by apply deserialize_later. }
  assert (Hlt : length (_deserialize_messages later (messages r))
                < length (_deserialize_messages now (messages r))).
  { rewrite <- Hlater. apply (length_filter_lt _ _ m); [done|].
    rewrite Hexp. intros H. by apply H. }
  rewrite Hlater. rewrite decide_True by done.
  rewrite (set_cache_unlocked env later path h) by done.
  eexists _, _, _. split; [reflexivity|]. simpl.
  split; [lia|]. split; [done|]. split; [apply lookup_insert_eq|]. simpl.
  split; [done|]. split; [done|]. split; [done|].
  intros h' Hne. by apply lookup_insert_ne.
Qed.

Lemma clear_expired_messages_drops_witness :
  ∃ n st' r',
    KimiCacheEdit.clear_expired_messages Samples.env 50 51 "a.txt" Samples.cache_a
    = (Ret n, st')
    ∧ (0 < n)%Z
    ∧ n = (Z.of_nat (length (_deserialize_messages 50 (messages Samples.row_a)))
           - Z.of_nat (length (_deserialize_messages 51 (messages Samples.row_a))))%Z
    ∧ db st' !! "h1" = Some r'
    ∧ messages r' = Some (_deserialize_messages 51 (messages Samples.row_a))
    ∧ cache_tag r' = cache_tag Samples.row_a
    ∧ cache_message r' = cache_message Samples.row_a
    ∧ ∀ h', h' ≠ "h1" → db st' !! h' = db Samples.cache_a !! h'.
Proof.
  apply (clear_expired_messages_drops Samples.env 50 51 "a.txt" "h1"
           Samples.row_a Samples.old_msg Samples.cache_a);
    [reflexivity | reflexivity | reflexivity | reflexivity | lia | | reflexivity |].
  - apply list_elem_of_further, list_elem_of_here.
  - intros t [= <-]. reflexivity.
Defined.

Lemma upload_each_spec (env : Env) (files : list string) :
  match upload_each env files with
  | Ret msgs =>
    Forall2 (λ f m, file_extract env f = Some (content m)
                    ∧ role m = "system" ∧ expired_time m = None) files msgs
  | Raise e => e = ApiError ∧ Exists (λ f, file_extract env f = None) files
  | Blocked => False
  end.
Proof.
  induction files as [|f files IH]; simpl; [constructor|].
  destruct (file_extract env f) as [text|] eqn:Hf.
  - destruct (upload_each env files) as [msgs|e|]; [|by destruct IH as [-> ?]; auto|done].
    constructor; [done|done].
  - split; [done|]. by left.
Qed.

(** X14.  [upload_files] without a tag answers one system message for each file,
    in the order of the files, holding the text extracted from it and no
    expiry; when the upload of one file raises, the whole call raises. *)
Theorem upload_files_untagged (env : Env) (now : Z) (files : list string) :
  (Forall (λ f, is_Some (file_extract env f)) files →
   ∃ msgs, upload_files env now files None = Ret msgs
     ∧ length msgs = length files
     ∧ Forall2 (λ f m, file_extract env f = Some (content m)
                       ∧ role m = "system" ∧ expired_time m = None) files msgs)
  ∧ (Exists (λ f, file_extract env f = None) files →
     upload_files env now files None = Raise ApiError).
Proof.
  pose proof (upload_each_spec env files) as H. unfold upload_files. simpl.
  destruct (upload_each env files) as [msgs|e|]; [|destruct H as [-> Hex]|done].
  - split.
    + intros _. exists msgs. split; [done|]. split; [|done].
      symmetry. by eapply Forall2_length.
    + intros Hex. exfalso. apply Exists_exists in Hex as (f & Hf & Hnone).
      apply list_elem_of_lookup in Hf as [i Hi].
      destruct (Forall2_lookup_l _ _ _ _ _ H Hi) as (m & _ & Hx & _). congruence.
  - split; [|done]. intros Hall. exfalso.
    apply Exists_exists in Hex as (f & Hf & Hnone).
    rewrite Forall_forall in Hall. destruct (Hall f Hf) as [? ?]. congruence.
Qed.

Lemma upload_files_untagged_witness :
  ∃ msgs, upload_files Samples.env 1 ["a.txt"; "b.txt"] None = Ret msgs
    ∧ length msgs = length ["a.txt"; "b.txt"]
    ∧ Forall2 (λ f m, file_extract Samples.env f = Some (content m)
                      ∧ role m = "system" ∧ expired_time m = None)
        ["a.txt"; "b.txt"] msgs.
Proof.
  apply (proj1 (upload_files_untagged Samples.env 1 ["a.txt"; "b.txt"])).
  repeat constructor; by eexists.
Defined.

(** X15.  [upload_files] with a tag never answers the extracted texts: when all
    uploads succeed and the caching endpoint answers 200 it answers a single
    marker message of role [cache] that expires 300 seconds later; otherwise
    it raises. *)
Theorem upload_files_tagged (env : Env) (now : Z) (files : list string) (tag : string) :
  tag ≠ "" →
  match upload_files env now files (Some tag) with
  | Ret msgs =>
    caching_status env = 200%Z
    ∧ Forall (λ f, is_Some (file_extract env f)) files
    ∧ msgs = [ {| role := "cache"; content := "tag=" +:+ tag +:+ ";reset_ttl=300";
                  expired_time := Some (now + 300)%Z |} ]
  | Raise e =>
    e = ApiError
    ∧ (caching_status env ≠ 200%Z ∨ Exists (λ f, file_extract env f = None) files)
  | Blocked => False
  end.
Proof.
  intros Htag. pose proof (upload_each_spec env files) as H. unfold upload_files.
  assert (Ht : truthy_str (Some tag) = true).
  { simpl. apply negb_true_iff. by apply String.eqb_neq. }
  rewrite Ht. simpl.
  destruct (upload_each env files) as [msgs|e|]; [|destruct H as [-> Hex]; auto|done].
  destruct (Z.eqb_spec (caching_status env) 200) as [Hs|Hs]; simpl.
  - split; [done|]. split; [|done].
    apply Forall_forall. intros f Hf. apply list_elem_of_lookup in Hf as [i Hi].
    destruct (Forall2_lookup_l _ _ _ _ _ H Hi) as (m & _ & Hx & _). by eexists.
  - split; [done|]. by left.
Qed.

Lemma upload_files_tagged_witness :
  match upload_files Samples.env 1 ["a.txt"] (Some "alice") with
  | Ret msgs =>
    caching_status Samples.env = 200%Z
    ∧ Forall (λ f, is_Some (file_extract Samples.env f)) ["a.txt"]
    ∧ msgs = [ {| role := "cache"; content := "tag=" +:+ "alice" +:+ ";reset_ttl=300";
                  expired_time := Some (1 + 300)%Z |} ]
  | Raise e =>
    e = ApiError
    ∧ (caching_status Samples.env ≠ 200%Z
       ∨ Exists (λ f, file_extract Samples.env f = None) ["a.txt"])
  | Blocked => False
  end.
Proof. apply (upload_files_tagged Samples.env 1 ["a.txt"] "alice"). discriminate. Defined.

End cache_more.

(** * More on the session manager *)

Section session_more.

Import KimiSessionMan.

Lemma truediv_pos (a b : Z) :
  (0 < b)%Z → py_truediv a b = Ret (inject_Z a / inject_Z b)%Q
              ∧ (inject_Z a / inject_Z b == a # Z.to_pos b)%Q.
Proof.
  intros Hb. unfold py_truediv. rewrite (proj2 (Z.eqb_neq b 0)) by lia.
  split; [done|]. destruct b as [|p|p]; try lia.
  unfold Qdiv, Qinv, Qmult, inject_Z, Qeq. simpl. lia.
Qed.

(** X16.  The hit rate lies between 0 and 1, and it exceeds 0.8 exactly when the
    hits are more than four times the misses. *)
Theorem hit_rate_range (s : Session) :
  (0 ≤ cache_hit_count s)%Z → (0 ≤ cache_miss_count s)%Z →
  ∃ rate, get_cache_hit_rate s = Ret rate
    ∧ (0 <= rate)%Q ∧ (rate <= 1)%Q
    ∧ (Qgtb rate (8 # 10) = true ↔ (4 * cache_miss_count s < cache_hit_count s)%Z).
Proof.
  intros Hh Hm. unfold get_cache_hit_rate.
  destruct (Z.gtb_spec (cache_hit_count s + cache_miss_count s) 0) as [Hpos|Hzero].
  - destruct (truediv_pos (cache_hit_count s) _ Hpos) as [-> Heq].
    eexists. split; [reflexivity|].
    remember (cache_hit_count s + cache_miss_count s)%Z as t.
    destruct t as [|p|p]; try lia.
    unfold Qgtb. rewrite negb_true_iff, <- not_true_iff_false, Qle_bool_iff.
    rewrite !Heq. unfold Qle. simpl. split; [lia|]. split; [lia|]. lia.
  - eexists. split; [reflexivity|]. split; [done|]. split; [done|].
    unfold Qgtb. simpl. split; [done|]. lia.
Qed.

Lemma hit_rate_range_witness :
  ∃ rate, get_cache_hit_rate Samples.long_session = Ret rate
    ∧ (0 <= rate)%Q ∧ (rate <= 1)%Q
    ∧ (Qgtb rate (8 # 10) = true ↔ (4 * 1 < 4)%Z).
Proof. apply (hit_rate_range Samples.long_session); simpl; lia. Defined.

Lemma system_others_length (l : list Message) :
  length (filter is_system l) + length (filter (λ m, ¬ is_system m) l) = length l.
Proof.
  rewrite <- length_app. apply Permutation_length, filter_app_complement.
Qed.

Lemma keep_last_length (l : list Message) :
  length (keep_last_occurrence l) ≤ length l.
Proof. apply sublist_length, keep_last_sublist. Qed.

(** X17.  [_deduplicate_messages] accounts for every message: what it answers and
    what it counts as removed add up to the input.  It removes nothing when
    the other messages have distinct contents, and deduplicating its own
    answer changes nothing and counts 0. *)
Theorem dedup_accounting (msgs : list Message) :
  (Z.of_nat (length (_deduplicate_messages msgs).1) + (_deduplicate_messages msgs).2
   = Z.of_nat (length msgs))%Z
  ∧ (0 ≤ (_deduplicate_messages msgs).2)%Z
  ∧ (NoDup (content <$> filter (λ m, ¬ is_system m) msgs) →
     (_deduplicate_messages msgs).2 = 0%Z)
  ∧ _deduplicate_messages (_deduplicate_messages msgs).1
    = ((_deduplicate_messages msgs).1, 0%Z).
Proof.
  rewrite !dedup_closed_form. simpl.
  set (sys := filter is_system msgs).
  set (others := filter (λ m, ¬ is_system m) msgs).
  pose proof (system_others_length msgs) as Hlen. fold sys others in Hlen.
  pose proof (keep_last_length others) as Hle.
  split; [rewrite length_app; lia|]. split; [lia|]. split.
  - intros Hnd. rewrite (keep_last_id others Hnd). lia.
  - destruct (filter_system_parts sys (keep_last_occurrence others)) as [Hs Ho];
      [apply system_Forall | apply keep_last_others, others_Forall |].
    rewrite Hs, Ho.
    rewrite (keep_last_id (keep_last_occurrence others)) by apply keep_last_NoDup.
    f_equal. lia.
Qed.

Lemma cleanup_count (max_messages : Z) (msgs : list Message) :
  (cleanup_messages max_messages msgs).2
  = (Z.of_nat (length msgs) - Z.of_nat (length (cleanup_messages max_messages msgs).1))%Z.
Proof.
  unfold cleanup_messages. rewrite dedup_closed_form.
  set (sys := filter is_system msgs).
  set (others := filter (λ m, ¬ is_system m) msgs).
  set (surv := keep_last_occurrence others).
  pose proof (system_others_length msgs) as Hlen. fold sys others in Hlen.
  destruct (filter_system_parts sys surv) as [Hs Ho];
    [apply system_Forall | apply keep_last_others, others_Forall |].
  cbv beta iota. rewrite Hs, Ho.
  destruct (Z.gtb_spec (Z.of_nat (length (sys ++ surv))) max_messages); simpl;
    rewrite !length_app; lia.
Qed.

Lemma cleanup_sublist (max_messages : Z) (msgs : list Message) :
  (cleanup_messages max_messages msgs).1 `sublist_of`
    filter is_system msgs ++ filter (λ m, ¬ is_system m) msgs.
Proof.
  rewrite cleanup_closed_form. apply sublist_app; [done|].
  etrans; [apply sublist_drop | apply keep_last_sublist].
Qed.

Lemma cleanup_fixpoint (max_messages : Z) (msgs : list Message) :
  cleanup_messages max_messages (cleanup_messages max_messages msgs).1
  = ((cleanup_messages max_messages msgs).1, 0%Z).
Proof.
  set (out := (cleanup_messages max_messages msgs).1).
  assert (Hout : out = filter is_system msgs
    ++ drop (length (keep_last_occurrence (filter (λ m, ¬ is_system m) msgs))
             - Z.to_nat (max_messages - Z.of_nat (length (filter is_system msgs))))
         (keep_last_occurrence (filter (λ m, ¬ is_system m) msgs)))
    by apply cleanup_closed_form.
  set (sys := filter is_system msgs) in *.
  set (others := filter (λ m, ¬ is_system m) msgs) in *.
  set (surv := keep_last_occurrence others) in *.
  set (kept := drop (length surv - Z.to_nat (max_messages - Z.of_nat (length sys))) surv)
    in *.
  assert (Hkept : Forall (λ m, ¬ is_system m) kept).
  { apply Forall_forall. intros m Hm.
    apply (proj1 (Forall_forall _ _) (others_Forall msgs)).
    eapply elem_of_sublist; [done|].
    etrans; [apply sublist_drop | apply keep_last_sublist]. }
  assert (Hnd : NoDup (content <$> kept)).
  { eapply sublist_NoDup; [apply (keep_last_NoDup others)|].
    apply fmap_sublist, sublist_drop. }
  destruct (filter_system_parts sys kept (system_Forall msgs) Hkept) as [Hs Ho].
  assert (Hfix : (cleanup_messages max_messages out).1 = out).
  { rewrite cleanup_closed_form, Hout, Hs, Ho, (keep_last_id kept Hnd).
    f_equal. replace (length kept - _) with 0; [done|].
    unfold kept. rewrite length_drop. lia. }
  apply injective_projections; simpl; [done|].
  rewrite cleanup_count, Hfix. lia.
Qed.

(** X18.  [cleanup_messages] counts exactly the messages it dropped, never adds
    one, and cleaning its own answer again changes nothing. *)
Theorem cleanup_accounting (max_messages : Z) (msgs : list Message) :
  (Z.of_nat (length (cleanup_messages max_messages msgs).1)
   + (cleanup_messages max_messages msgs).2 = Z.of_nat (length msgs))%Z
  ∧ (0 ≤ (cleanup_messages max_messages msgs).2)%Z
  ∧ (cleanup_messages max_messages msgs).1 `sublist_of`
      filter is_system msgs ++ filter (λ m, ¬ is_system m) msgs
  ∧ cleanup_messages max_messages (cleanup_messages max_messages msgs).1
    = ((cleanup_messages max_messages msgs).1, 0%Z).
Proof.
  pose proof (cleanup_sublist max_messages msgs) as Hsub.
  pose proof (sublist_length _ _ Hsub) as Hlen.
  rewrite length_app, system_others_length in Hlen.
  rewrite cleanup_count.
  split; [lia|]. split; [lia|]. split; [done|]. apply cleanup_fixpoint.
Qed.

Section sweep.

Context (now : Q) (expire_seconds max_messages : Z).


Lemma sweep_cons acc kv l :
  foldl (swept_step now expire_seconds max_messages) acc (kv :: l)
  = foldl (swept_step now expire_seconds max_messages)
      (swept_step now expire_seconds max_messages acc kv) l.
Proof. reflexivity. Qed.

Lemma swept_step_total acc uid s :
  total_cleaned_messages (swept_step now expire_seconds max_messages acc (uid, s))
  = if is_idle now expire_seconds s then total_cleaned_messages acc
    else (total_cleaned_messages acc
          + (cleanup_messages max_messages (messages s)).2)%Z.
Proof.
  unfold swept_step. destruct (is_idle now expire_seconds s); [done|].
  destruct (cleanup_messages max_messages (messages s)) as [new n]. reflexivity.
Qed.

Lemma sweep_expired_list (l : list (string * Session)) acc :
  expired_users (foldl (swept_step now expire_seconds max_messages) acc l)
  = expired_users acc
    ++ (filter (λ kv, is_idle now expire_seconds kv.2 = true) l).*1.
Proof.
  revert acc. induction l as [|[k s] l IH]; intros acc.
  - simpl. by rewrite app_nil_r.
  - rewrite sweep_cons, IH, swept_step_expired, filter_cons. simpl.
    destruct (is_idle now expire_seconds s).
    + rewrite decide_True by done. by rewrite <- app_assoc.
    + rewrite decide_False by done. done.
Qed.

Lemma sweep_total (l : list (string * Session)) acc :
  total_cleaned_messages (foldl (swept_step now expire_seconds max_messages) acc l)
  = (total_cleaned_messages acc
     + foldr Z.add 0%Z
         ((λ kv : string * Session, (cleanup_messages max_messages (messages kv.2)).2)
          <$> filter (λ kv, is_idle now expire_seconds kv.2 = false) l))%Z.
Proof.
  revert acc. induction l as [|[k s] l IH]; intros acc.
  - simpl. lia.
  - rewrite sweep_cons, IH, swept_step_total, filter_cons. simpl.
    destruct (is_idle now expire_seconds s).
    + rewrite decide_False by done. done.
    + rewrite decide_True by done. rewrite fmap_cons. cbn [foldr snd]. lia.
Qed.

Lemma drop_users_sessions (us : list string) (st : SessionMan) uid :
  sessions (foldl drop_user st us) !! uid
  = if decide (uid ∈ us) then None else sessions st !! uid.
Proof.
  revert st. induction us as [|u us IH]; intros st; [done|].
  simpl. rewrite IH. unfold drop_user, set_saved, set_sessions. simpl.
  destruct (decide (u = uid)) as [->|Hne].
  - rewrite lookup_delete_eq. rewrite (decide_True (P := uid ∈ uid :: us)) by left.
    by case_decide.
  - rewrite lookup_delete_ne by done.
    destruct (decide (uid ∈ us)).
    + rewrite decide_True; [done | by right].
    + rewrite decide_False; [done|]. intros [?|?]%elem_of_cons; congruence.
Qed.

Lemma drop_users_rest (us : list string) (st : SessionMan) :
  cache_man (foldl drop_user st us) = cache_man st
  ∧ _last_cleanup (foldl drop_user st us) = _last_cleanup st.
Proof. revert st. induction us as [|u us IH]; intros st; [done|]. simpl. by rewrite !(proj1 (IH _)), !(proj2 (IH _)). Qed.

Lemma sweep_rest (l : list (string * Session)) acc :
  cache_man (sw_state (foldl (swept_step now expire_seconds max_messages) acc l))
  = cache_man (sw_state acc)
  ∧ _last_cleanup (sw_state (foldl (swept_step now expire_seconds max_messages) acc l))
    = _last_cleanup (sw_state acc).
Proof.
  revert acc. induction l as [|[k s] l IH]; intros acc; [done|].
  rewrite sweep_cons. destruct (IH (swept_step now expire_seconds max_messages acc (k, s)))
    as [-> ->].
  unfold swept_step. destruct (is_idle now expire_seconds s); [done|].
  destruct (cleanup_messages max_messages (messages s)) as [new n]. simpl.
  case_decide; done.
Qed.


Lemma idle_key_listed (m : gmap string Session) uid :
  uid ∈ (filter (λ kv : string * Session, is_idle now expire_seconds kv.2 = true)
           (map_to_list m)).*1
  ↔ ∃ s, m !! uid = Some s ∧ is_idle now expire_seconds s = true.
Proof.
  rewrite list_elem_of_fmap. split.
  - intros ([k s] & -> & [Hidle Hin%elem_of_map_to_list]%list_elem_of_filter).
    by exists s.
  - intros (s & Hs & Hidle). exists (uid, s). split; [done|].
    apply list_elem_of_filter. split; [done|]. by apply elem_of_map_to_list.
Qed.

Lemma clean_pass_sessions (st : SessionMan) :
  sessions (clean_pass now expire_seconds max_messages st).2
  = cleaned max_messages
    <$> filter (λ kv, is_idle now expire_seconds kv.2 = false) (sessions st).
Proof.
  apply map_eq. intros uid. unfold clean_pass. simpl.
  rewrite drop_users_sessions, sweep_expired_list. simpl.
  rewrite sweep_sessions_lookup by apply NoDup_fst_map_to_list.
  rewrite list_to_map_to_list, lookup_fmap. simpl.
  destruct (sessions st !! uid) as [s|] eqn:Hs.
  - destruct (is_idle now expire_seconds s) eqn:Hidle.
    + rewrite decide_True by (apply idle_key_listed; eauto).
      rewrite (proj2 (map_lookup_filter_None _ _ _)); [done|].
      right. intros s' Hs'. simpl. congruence.
    + rewrite decide_False.
      * by rewrite (map_lookup_filter_Some_2 _ _ _ _ Hs Hidle).
      * intros (s' & Hs' & Hidle')%idle_key_listed. congruence.
  - rewrite decide_False.
    + rewrite (proj2 (map_lookup_filter_None _ _ _)); [done | by left].
    + intros (s' & Hs' & _)%idle_key_listed. congruence.
Qed.

End sweep.

Lemma clean_pass_result (now : Q) (expire_seconds max_messages : Z) (st : SessionMan) :
  ∃ st',
    clean_pass now expire_seconds max_messages st
    = (Ret (Z.of_nat (length (filter (λ kv, is_idle now expire_seconds kv.2 = true)
                                (map_to_list (sessions st)))),
            foldr Z.add 0%Z
              ((λ kv : string * Session,
                  (Z.of_nat (length (messages kv.2))
                   - Z.of_nat (length (messages (cleaned max_messages kv.2))))%Z)
               <$> filter (λ kv, is_idle now expire_seconds kv.2 = false)
                     (map_to_list (sessions st)))), st')
    ∧ sessions st'
      = cleaned max_messages
        <$> filter (λ kv, is_idle now expire_seconds kv.2 = false) (sessions st)
    ∧ cache_man st' = cache_man st
    ∧ _last_cleanup st' = _last_cleanup st.
Proof.
  exists (clean_pass now expire_seconds max_messages st).2.
  split; [|split; [apply clean_pass_sessions|]].
  - unfold clean_pass. simpl. f_equal. f_equal. f_equal.
    + rewrite sweep_expired_list. simpl. by rewrite length_fmap.
    + rewrite sweep_total. cbn [total_cleaned_messages]. rewrite Z.add_0_l.
      f_equal. apply list_fmap_ext.
      intros i [k s] _. simpl. apply cleanup_count.
  - unfold clean_pass. simpl.
    rewrite (proj1 (drop_users_rest _ _)), (proj2 (drop_users_rest _ _)).
    apply (sweep_rest now expire_seconds max_messages).
Qed.

(** X19.  The cleanup pass in closed form, when every snapshot that it has to
    write can be written: the pass returns; the table afterwards holds the
    sessions that were not idle, each with its messages cleaned; the first
    number answered is the number of idle sessions, the second the number of
    messages the remaining sessions lost; the cache manager and the time of
    the last cleanup are not touched. *)
Theorem cleanup_pass_result (env : KimiCacheMan.Env) (now : Q)
    (expire_seconds max_messages : Z) (st : SessionMan) :
  snapshots_writable env now expire_seconds max_messages st →
  ∃ st',
    clear_expired_sessions env now expire_seconds max_messages st
    = (Ret (Z.of_nat (length (filter (λ kv, is_idle now expire_seconds kv.2 = true)
                                (map_to_list (sessions st)))),
            foldr Z.add 0%Z
              ((λ kv : string * Session,
                  (Z.of_nat (length (messages kv.2))
                   - Z.of_nat (length (messages (cleaned max_messages kv.2))))%Z)
               <$> filter (λ kv, is_idle now expire_seconds kv.2 = false)
                     (map_to_list (sessions st)))), st')
    ∧ sessions st'
      = cleaned max_messages
        <$> filter (λ kv, is_idle now expire_seconds kv.2 = false) (sessions st)
    ∧ cache_man st' = cache_man st
    ∧ _last_cleanup st' = _last_cleanup st.
Proof.
  intros Hw. rewrite clear_expired_sessions_writable by done.
  apply clean_pass_result.
Qed.

Lemma cleanup_pass_result_witness :
  ∃ st',
    clear_expired_sessions Samples.env 10 100 5 Samples.man_long
    = (Ret (Z.of_nat (length (filter (λ kv, is_idle 10 100 kv.2 = true)
                                (map_to_list (sessions Samples.man_long)))),
            foldr Z.add 0%Z
              ((λ kv : string * Session,
                  (Z.of_nat (length (messages kv.2))
                   - Z.of_nat (length (messages (cleaned 5 kv.2))))%Z)
               <$> filter (λ kv, is_idle 10 100 kv.2 = false)
                     (map_to_list (sessions Samples.man_long)))), st')
    ∧ sessions st'
      = cleaned 5 <$> filter (λ kv, is_idle 10 100 kv.2 = false) (sessions Samples.man_long)
    ∧ cache_man st' = cache_man Samples.man_long
    ∧ _last_cleanup st' = _last_cleanup Samples.man_long.
Proof.
  apply (cleanup_pass_result Samples.env 10 100 5 Samples.man_long).
  intros uid s Hs _ _. cbn [sessions Samples.man_long] in Hs.
  apply lookup_singleton_Some in Hs as [_ <-]. reflexivity.
Defined.

Lemma sweep_stable (now : Q) (expire_seconds max_messages : Z)
    (l : list (string * Session)) (acc : Sweep) :
  Forall (λ kv, sessions (sw_state acc) !! kv.1 = Some kv.2
                ∧ is_idle now expire_seconds kv.2 = false
                ∧ cleanup_messages max_messages (messages kv.2) = (messages kv.2, 0%Z)) l →
  foldl (swept_step now expire_seconds max_messages) acc l = acc.
Proof.
  induction 1 as [|[k s] l (Hs & Hidle & Hfix) _ IH]; [done|].
  rewrite sweep_cons.
  assert (Hstep : swept_step now expire_seconds max_messages acc (k, s) = acc).
  { unfold swept_step. simpl in *. rewrite Hidle, Hfix.
    rewrite decide_False by (intros H; by apply H).
    assert (Hsame : set_messages (messages s) s = s) by (by destruct s).
    rewrite Hsame. destruct acc as [[ss c sv lc] ex tot].
    unfold set_sessions. simpl in *. rewrite (insert_id ss k s Hs).
    by rewrite Z.add_0_r. }
  by rewrite Hstep.
Qed.

Lemma cleaned_idle (now : Q) (expire_seconds max_messages : Z) (s : Session) :
  is_idle now expire_seconds (cleaned max_messages s) = is_idle now expire_seconds s.
Proof. reflexivity. Qed.

Lemma clean_pass_idempotent (now : Q) (expire_seconds max_messages : Z)
    (st : SessionMan) :
  clean_pass now expire_seconds max_messages
    (clean_pass now expire_seconds max_messages st).2
  = (Ret (0%Z, 0%Z), (clean_pass now expire_seconds max_messages st).2).
Proof.
  set (st1 := (clean_pass now expire_seconds max_messages st).2).
  assert (Hstable : foldl (swept_step now expire_seconds max_messages)
                      {| sw_state := st1; expired_users := [];
                         total_cleaned_messages := 0 |} (map_to_list (sessions st1))
                    = {| sw_state := st1; expired_users := [];
                         total_cleaned_messages := 0 |}).
  { apply sweep_stable, Forall_forall. intros [k s1] Hin%elem_of_map_to_list.
    simpl. split; [done|].
    unfold st1 in Hin. rewrite clean_pass_sessions in Hin.
    apply lookup_fmap_Some in Hin as (s & <- & [_ Hidle]%map_lookup_filter_Some).
    split; [done|]. apply cleanup_fixpoint. }
  unfold clean_pass at 1. rewrite Hstable. reflexivity.
Qed.

(** After a pass that returned no snapshot is due. *)
Lemma clean_pass_settled (env : KimiCacheMan.Env) (now : Q)
    (expire_seconds max_messages : Z) (st : SessionMan) :
  snapshots_writable env now expire_seconds max_messages
    (clean_pass now expire_seconds max_messages st).2.
Proof.
  intros uid s1 Hs1 _ Hsh. exfalso.
  rewrite clean_pass_sessions in Hs1.
  apply lookup_fmap_Some in Hs1 as (s & <- & _).
  unfold shortened, cleaned in Hsh. cbn [messages set_messages] in Hsh.
  rewrite (cleanup_fixpoint max_messages (messages s)) in Hsh. by apply Hsh.
Qed.

(** X20.  After a cleanup pass that returned, a second pass at the same time
    finds nothing to do: it returns [(0, 0)] and leaves the manager as the
    first pass left it. *)
Theorem cleanup_pass_idempotent (env : KimiCacheMan.Env) (now : Q)
    (expire_seconds max_messages : Z) (st st1 : SessionMan) (res : Z * Z) :
  clear_expired_sessions env now expire_seconds max_messages st = (Ret res, st1) →
  clear_expired_sessions env now expire_seconds max_messages st1
  = (Ret (0%Z, 0%Z), st1).
Proof.
  intros [_ Hrun]%clear_expired_sessions_returns.
  assert (Hst1 : st1 = (clean_pass now expire_seconds max_messages st).2)
    by (by rewrite Hrun).
  rewrite Hst1.
  rewrite clear_expired_sessions_writable by apply clean_pass_settled.
  apply clean_pass_idempotent.
Qed.

Lemma cleanup_pass_idempotent_witness :
  ∃ res st1,
    clear_expired_sessions Samples.env 10 100 5 Samples.man_long = (Ret res, st1)
    ∧ clear_expired_sessions Samples.env 10 100 5 st1 = (Ret (0%Z, 0%Z), st1).
Proof.
  eexists _, _. split; [vm_compute; reflexivity|].
  eapply (cleanup_pass_idempotent Samples.env 10 100 5 Samples.man_long).
  vm_compute. reflexivity.
Defined.

Section snapshots.

Context (now : Q) (expire_seconds max_messages : Z).




End snapshots.



Lemma keyed_man_long : keyed Samples.man_long.
Proof.
  intros uid s Hs. unfold Samples.man_long in Hs. simpl in Hs.
  apply lookup_singleton_Some in Hs as [<- <-]. reflexivity.
Defined.


(** X30.  A cleanup pass that has to write a snapshot that cannot be written
    does not return: it raises the exception of [open] for one of the
    sessions whose snapshot was due, and no session has been deleted.
    Every session of the table is then as it was before or has its
    messages cleaned up; the idle ones are all still there, as they were;
    the cache manager and the time of the last cleanup are not touched. *)
Theorem cleanup_pass_aborts (env : KimiCacheMan.Env) (now : Q)
    (expire_seconds max_messages : Z) (st : SessionMan) :
  ¬ snapshots_writable env now expire_seconds max_messages st →
  ∃ e st',
    clear_expired_sessions env now expire_seconds max_messages st = (Raise e, st')
    ∧ (∃ uid s, sessions st !! uid = Some s
                ∧ is_idle now expire_seconds s = false
                ∧ shortened max_messages s
                ∧ KimiCacheMan.snapshot_error env (user_id s) = Some e)
    ∧ (∀ uid, sessions st' !! uid = sessions st !! uid
              ∨ ∃ s, sessions st !! uid = Some s
                     ∧ is_idle now expire_seconds s = false
                     ∧ sessions st' !! uid = Some (cleaned max_messages s))
    ∧ (∀ uid s, sessions st !! uid = Some s → is_idle now expire_seconds s = true →
                sessions st' !! uid = Some s)
    ∧ cache_man st' = cache_man st
    ∧ _last_cleanup st' = _last_cleanup st.
Proof.
  intros Hnw.
  pose (start := {| sw_state := st; expired_users := []; total_cleaned_messages := 0 |}).
  pose proof (sweep_loop_lookup now expire_seconds max_messages env
                (map_to_list (sessions st)) start) as Hlook.
  pose proof (sweep_loop_rest now expire_seconds max_messages env
                (map_to_list (sessions st)) start) as Hrest.
  pose proof (sweep_loop_not_blocked now expire_seconds max_messages env
                (map_to_list (sessions st)) start) as Hnb.
  pose proof (sweep_loop_returns now expire_seconds max_messages env
                (map_to_list (sessions st)) start) as Hret.
  pose proof (sweep_loop_raises now expire_seconds max_messages env
                (map_to_list (sessions st)) start) as Hraise.
  unfold clear_expired_sessions. cbv zeta in *. fold start.
  destruct (for_each _ _ start) as [[[]|e|] swept]; cbn [fst snd] in *; [| |done].
  { destruct Hnw. apply snapshots_writable_items. by eapply Hret. }
  assert (Hsessions : ∀ uid, sessions (sw_state swept) !! uid = sessions st !! uid
            ∨ ∃ s, sessions st !! uid = Some s
                   ∧ is_idle now expire_seconds s = false
                   ∧ sessions (sw_state swept) !! uid = Some (cleaned max_messages s)).
  { intros uid. destruct (Hlook uid) as [Hsame|(s & Hin%elem_of_map_to_list & ? & ?)];
      [by left | right; by exists s]. }
  exists e, (sw_state swept). split; [reflexivity|]. split.
  { destruct (Hraise swept e eq_refl) as (k & s & Hin%elem_of_map_to_list & ?).
    by exists k, s. }
  split; [done|]. split; [|done].
  intros uid s Hs Hidle. destruct (Hsessions uid) as [->|(s' & Hs' & Hidle' & _)];
    [done | congruence].
Qed.

Lemma cleanup_pass_aborts_witness :
  ∃ e st',
    clear_expired_sessions Samples.env 10 100 5 MoreSessions.man_slash = (Raise e, st')
    ∧ (∃ uid s, sessions MoreSessions.man_slash !! uid = Some s
                ∧ is_idle 10 100 s = false
                ∧ shortened 5 s
                ∧ KimiCacheMan.snapshot_error Samples.env (user_id s) = Some e)
    ∧ (∀ uid, sessions st' !! uid = sessions MoreSessions.man_slash !! uid
              ∨ ∃ s, sessions MoreSessions.man_slash !! uid = Some s
                     ∧ is_idle 10 100 s = false
                     ∧ sessions st' !! uid = Some (cleaned 5 s))
    ∧ (∀ uid s, sessions MoreSessions.man_slash !! uid = Some s →
                is_idle 10 100 s = true → sessions st' !! uid = Some s)
    ∧ cache_man st' = cache_man MoreSessions.man_slash
    ∧ _last_cleanup st' = _last_cleanup MoreSessions.man_slash.
Proof.
  apply (cleanup_pass_aborts Samples.env 10 100 5 MoreSessions.man_slash).
  intros Hw.
  assert (Hbad : KimiCacheMan.snapshot_error Samples.env
                   (user_id MoreSessions.slash_session) = None).
  { apply (Hw "x/y" MoreSessions.slash_session); [reflexivity | reflexivity|].
    unfold shortened. vm_compute. discriminate. }
  discriminate Hbad.
Defined.

Lemma with_cache_same (st : SessionMan) : with_cache (cache_man st) st = st.
Proof. by destruct st. Qed.

(** [get_session] when no cleanup is due, case by case. *)
Lemma get_session_quiet cfg env now uid (st : SessionMan) :
  quiet now st →
  get_session cfg env now uid st
  = match sessions st !! uid with
    | Some s => (Ret (s, false), st)
    | None =>
      let '(r, c) := KimiCacheMan.get_cache env (py_int now) (knowledge_file cfg)
                       (cache_man st) in
      let created (knowledge : list KimiCacheMan.CacheMessage) :=
        (Ret (fresh_session cfg uid now knowledge, true),
         set_sessions (insert uid (fresh_session cfg uid now knowledge))
           (with_cache c st)) in
      match r with
      | Ret KimiCacheMan.GNone => created []
      | Ret (KimiCacheMan.GMessages msgs) => created msgs
      | Ret (KimiCacheMan.GError text) =>
        if String.eqb text "" then created [] else (Raise AttributeError, with_cache c st)
      | Raise e => (Raise e, with_cache c st)
      | Blocked => (Blocked, with_cache c st)
      end
    end.
Proof.
  unfold quiet. intros Hq. unfold get_session, bind, gets, ret. simpl. rewrite Hq. simpl.
  destruct (sessions st !! uid) as [s|]; [done|].
  unfold lift_cache.
  destruct (KimiCacheMan.get_cache env (py_int now) (knowledge_file cfg) (cache_man st))
    as [[cm|e|] c]; simpl; [|done|done].
  destruct cm as [|msgs|text]; simpl; [done| |].
  - by destruct msgs.
  - by destruct (String.eqb text "").
Qed.

Lemma quiet_after_cleanup now (st : SessionMan) : quiet now (set_last_cleanup now st).
Proof.
  unfold quiet, Qgtb. simpl. apply negb_false_iff, Qle_bool_iff.
  apply Qle_trans with 0%Q; [|done].
  apply Qle_lteq. right. apply Qplus_opp_r.
Qed.

Lemma keyed_sessions (st1 st2 : SessionMan) :
  sessions st2 = sessions st1 → keyed st1 → keyed st2.
Proof. unfold keyed. by intros ->. Qed.

Lemma keyed_insert uid s (st1 st2 : SessionMan) :
  sessions st2 = <[uid := s]> (sessions st1) → user_id s = uid → keyed st1 → keyed st2.
Proof.
  unfold keyed. intros -> Hid Hkey uid' s' [[<- <-]|[_ Hs']]%lookup_insert_Some; eauto.
Qed.

Lemma drop_users_keyed (us : list string) (st : SessionMan) :
  keyed st → keyed (foldl drop_user st us).
Proof.
  intros Hkey uid s. rewrite drop_users_sessions. case_decide; [done|]. apply Hkey.
Qed.

(** However the cleanup pass ends, it leaves every session under its own
    [user_id]. *)
Lemma clear_expired_sessions_keyed env now expire_seconds max_messages (st : SessionMan) :
  keyed st → keyed (clear_expired_sessions env now expire_seconds max_messages st).2.
Proof.
  intros Hkey.
  pose (start := {| sw_state := st; expired_users := []; total_cleaned_messages := 0 |}).
  assert (Hswept : keyed (sw_state
    (for_each (sweep_step env now expire_seconds max_messages)
       (map_to_list (sessions st)) start).2)).
  { intros uid s' Hs'.
    destruct (sweep_loop_lookup now expire_seconds max_messages env
                (map_to_list (sessions st)) start uid)
      as [Hsame|(s & Hin & _ & Hlook)]; cbv zeta in *.
    - rewrite Hsame in Hs'. by apply Hkey.
    - rewrite Hlook in Hs'. injection Hs' as <-.
      apply elem_of_map_to_list in Hin. exact (Hkey uid s Hin). }
  unfold clear_expired_sessions. cbv zeta. fold start.
  destruct (for_each _ _ start) as [[[]|e|] swept]; cbn [snd] in *; [|done|done].
  by apply drop_users_keyed.
Qed.

(** When the cleanup is due, [get_session] runs it; when the cleanup
    returns, it notes the time and goes on as it does on the cleaned
    manager; an exception of the cleanup is one of [get_session]. *)
Lemma get_session_due cfg env now uid (st : SessionMan) :
  ¬ quiet now st →
  get_session cfg env now uid st
  = match clear_expired_sessions env now default_expire_seconds default_max_messages st
    with
    | (Ret _, st1) => get_session cfg env now uid (set_last_cleanup now st1)
    | (Raise e, st1) => (Raise e, st1)
    | (Blocked, st1) => (Blocked, st1)
    end.
Proof.
  intros Hdue. unfold quiet in Hdue. apply not_false_iff_true in Hdue.
  unfold get_session at 1. unfold bind at 1. unfold gets at 1.
  unfold bind at 1. rewrite Hdue. unfold bind at 1.
  destruct (clear_expired_sessions env now default_expire_seconds default_max_messages st)
    as [[res|e|] st1] eqn:Hclear; [|reflexivity|reflexivity].
  rewrite (get_session_quiet cfg env now uid _ (quiet_after_cleanup now _)).
  unfold modify, bind, gets, ret. cbn [sessions set_last_cleanup].
  destruct (sessions st1 !! uid) as [s|]; [done|].
  unfold lift_cache. cbn [cache_man set_last_cleanup].
  destruct (KimiCacheMan.get_cache env (py_int now) (knowledge_file cfg) _)
    as [[cm|e|] c]; simpl; [|done|done].
  destruct cm as [|msgs|text]; simpl; [done| |].
  - by destruct msgs.
  - by destruct (String.eqb text "").
Qed.

(** What holds after a call of [get_session] that returned, when no cleanup
    was due. *)
Lemma get_session_quiet_post cfg env now uid (st st' : SessionMan) s (is_new : bool) :
  quiet now st →
  get_session cfg env now uid st = (Ret (s, is_new), st') →
  sessions st' !! uid = Some s
  ∧ quiet now st'
  ∧ saved st' = saved st
  ∧ sessions st' = (if is_new then <[uid := s]> (sessions st) else sessions st)
  ∧ (is_new = true ↔ sessions st !! uid = None)
  ∧ (is_new = true → ∃ knowledge, s = fresh_session cfg uid now knowledge).
Proof.
  intros Hq. rewrite get_session_quiet by done.
  destruct (sessions st !! uid) as [s0|] eqn:Hs.
  - intros [= <- <- <-]. repeat split; try done.
  - destruct (KimiCacheMan.get_cache _ _ _ _) as [[cm|e|] c]; [|done|done].
    assert (Hcreated : ∀ knowledge,
      (Ret (fresh_session cfg uid now knowledge, true),
       set_sessions (insert uid (fresh_session cfg uid now knowledge)) (with_cache c st))
      = (Ret (s, is_new), st') →
      sessions st' !! uid = Some s ∧ quiet now st' ∧ saved st' = saved st
      ∧ sessions st' = (if is_new then <[uid := s]> (sessions st) else sessions st)
      ∧ (is_new = true ↔ None = (None : option Session))
      ∧ (is_new = true → ∃ knowledge, s = fresh_session cfg uid now knowledge)).
    { intros knowledge [= <- <- <-]. simpl.
      split; [apply lookup_insert_eq|]. repeat split; eauto. }
    destruct cm as [|msgs|text]; [by apply Hcreated | by apply Hcreated |].
    destruct (String.eqb text ""); [by apply Hcreated | done].
Qed.

(** The state in which [get_session] looks the user up: the manager itself,
    or the manager after the cleanup when that is due and returns.  When
    the cleanup raises, so does [get_session]. *)
Lemma get_session_settled cfg env now uid (st : SessionMan) :
  (∃ st0, quiet now st0
     ∧ get_session cfg env now uid st = get_session cfg env now uid st0
     ∧ (keyed st → keyed st0))
  ∨ (∃ e st1, get_session cfg env now uid st = (Raise e, st1)
       ∧ (keyed st → keyed st1)).
Proof.
  destruct (Qgtb (now - _last_cleanup st) 3600) eqn:Hq; [|left; by exists st].
  assert (Hdue : ¬ quiet now st) by (unfold quiet; by rewrite Hq).
  rewrite (get_session_due cfg env now uid st Hdue).
  pose proof (clear_expired_sessions_keyed env now default_expire_seconds
                default_max_messages st) as Hkeyed.
  pose proof (clear_expired_sessions_not_blocked now default_expire_seconds
                default_max_messages env st) as Hnb.
  destruct (clear_expired_sessions env now default_expire_seconds default_max_messages st)
    as [[res|e|] st1]; cbn [fst snd] in *; [| |done].
  - left. eexists. split; [apply quiet_after_cleanup|]. split; [reflexivity|].
    intros Hkey. by eapply keyed_sessions; [|apply Hkeyed].
  - right. exists e, st1. split; [reflexivity|done].
Qed.

(** X22.  [get_session] hands out the session that the table holds for the user:
    when it returns, the session is registered under the user, and asking
    again at the same time answers the same session, not as a new one, and
    changes nothing. *)
Theorem get_session_registers (cfg : Config) (env env' : KimiCacheMan.Env) (now : Q)
    (uid : string) (st st' : SessionMan) (s : Session) (is_new : bool) :
  get_session cfg env now uid st = (Ret (s, is_new), st') →
  sessions st' !! uid = Some s
  ∧ (is_new = true → user_id s = uid ∧ cache_hit_count s = 0%Z
                     ∧ cache_miss_count s = 0%Z ∧ last_active_time s = now)
  ∧ get_session cfg env' now uid st' = (Ret (s, false), st').
Proof.
  destruct (get_session_settled cfg env now uid st)
    as [(st0 & Hq & -> & _)|(e & st1 & -> & _)]; [|done].
  intros Hget.
  destruct (get_session_quiet_post cfg env now uid st0 st' s is_new Hq Hget)
    as (Hs & Hq' & _ & _ & _ & Hfresh).
  split; [done|]. split.
  - intros Hnew. destruct (Hfresh Hnew) as (knowledge & ->). done.
  - rewrite get_session_quiet by done. by rewrite Hs.
Qed.

Lemma get_session_registers_witness :
  sessions Samples.man_long !! "u1" = Some Samples.long_session
  ∧ (false = true → user_id Samples.long_session = "u1"
                    ∧ cache_hit_count Samples.long_session = 0%Z
                    ∧ cache_miss_count Samples.long_session = 0%Z
                    ∧ last_active_time Samples.long_session = 10%Q)
  ∧ get_session Samples.cfg Samples.env_down 10 "u1" Samples.man_long
    = (Ret (Samples.long_session, false), Samples.man_long).
Proof.
  apply (get_session_registers Samples.cfg Samples.env Samples.env_down 10 "u1"
           Samples.man_long Samples.man_long Samples.long_session false).
  vm_compute. reflexivity.
Defined.

(** X23.  A user without a session, while the knowledge file is cached: the new
    session starts with the system message of the persona, followed by the
    live messages of the knowledge record as role and content; its counters
    are 0.  It is entered in the table but no snapshot file is written, and
    the cache is not touched. *)
Theorem new_session_seeded (cfg : Config) (env : KimiCacheMan.Env) (now : Q)
    (uid h : string) (r : KimiCacheMan.Row) (st : SessionMan) :
  quiet now st → sessions st !! uid = None →
  KimiCacheMan.lock_held (cache_man st) = false →
  KimiCacheMan.file_digest env (knowledge_file cfg) = Some h →
  KimiCacheMan.db (cache_man st) !! h = Some r →
  ∃ s st',
    get_session cfg env now uid st = (Ret (s, true), st')
    ∧ messages s
      = {| role := "system"; content := character_desc cfg; timestamp := None |}
        :: (copy_message
            <$> KimiCacheMan._deserialize_messages (py_int now) (KimiCacheMan.messages r))
    ∧ user_id s = uid ∧ cache_hit_count s = 0%Z ∧ cache_miss_count s = 0%Z
    ∧ last_active_time s = now ∧ context s = ∅
    ∧ sessions st' = <[uid := s]> (sessions st)
    ∧ saved st' = saved st ∧ cache_man st' = cache_man st.
Proof.
  intros Hq Hnone Hl Hd Hr.
  rewrite get_session_quiet by done. rewrite Hnone.
  rewrite (get_cache_found env (py_int now) _ h r (cache_man st) Hl Hd Hr).
  cbv zeta. rewrite with_cache_same.
  eexists _, _. split; [reflexivity|]. repeat split; done.
Qed.

Lemma new_session_seeded_witness :
  ∃ s st',
    get_session MoreSessions.cfg_a Samples.env 10 "u2" Samples.man_long
    = (Ret (s, true), st')
    ∧ messages s
      = {| role := "system"; content := character_desc MoreSessions.cfg_a;
           timestamp := None |}
        :: (copy_message
            <$> KimiCacheMan._deserialize_messages (py_int 10)
                  (KimiCacheMan.messages Samples.row_a))
    ∧ user_id s = "u2" ∧ cache_hit_count s = 0%Z ∧ cache_miss_count s = 0%Z
    ∧ last_active_time s = 10%Q ∧ context s = ∅
    ∧ sessions st' = <["u2" := s]> (sessions Samples.man_long)
    ∧ saved st' = saved Samples.man_long ∧ cache_man st' = cache_man Samples.man_long.
Proof.
  apply (new_session_seeded MoreSessions.cfg_a Samples.env 10 "u2" "h1" Samples.row_a
           Samples.man_long); reflexivity.
Defined.

(** X24.  A user without a session, at a time when no cleanup is due, with the
    lock of the cache free, while the knowledge file is on disk but not
    cached: when the upload works the text becomes the second message of the
    session and the cache keeps it; when the upload raises, so does
    [get_session], and neither a session nor a record is created. *)
Theorem new_session_upload (cfg : Config) (env : KimiCacheMan.Env) (now : Q)
    (uid h : string) (st : SessionMan) :
  quiet now st → sessions st !! uid = None →
  KimiCacheMan.lock_held (cache_man st) = false →
  KimiCacheMan.file_digest env (knowledge_file cfg) = Some h →
  KimiCacheMan.db (cache_man st) !! h = None →
  match KimiCacheMan.file_extract env (knowledge_file cfg) with
  | Some text =>
    ∃ s st',
      get_session cfg env now uid st = (Ret (s, true), st')
      ∧ messages s
        = [ {| role := "system"; content := character_desc cfg; timestamp := None |};
            {| role := "system"; content := text; timestamp := None |} ]
      ∧ sessions st' = <[uid := s]> (sessions st)
      ∧ saved st' = saved st
      ∧ (KimiCacheMan.messages <$> KimiCacheMan.db (cache_man st') !! h)
        = Some (Some [ {| KimiCacheMan.role := "system"; KimiCacheMan.content := text;
                          KimiCacheMan.expired_time := None |} ])
  | None => get_session cfg env now uid st = (Raise ApiError, st)
  end.
Proof.
  intros Hq Hnone Hl Hd Hr.
  rewrite get_session_quiet by done. rewrite Hnone.
  rewrite (get_cache_missing env (py_int now) _ h (cache_man st) Hl Hd Hr).
  unfold KimiCacheMan.upload_files, KimiCacheMan.upload_each.
  destruct (KimiCacheMan.file_extract env (knowledge_file cfg)) as [text|].
  - eexists _, _. split; [reflexivity|]. simpl.
    split; [done|]. split; [done|]. split; [done|]. by rewrite lookup_insert_eq.
  - cbv beta iota zeta. by rewrite with_cache_same.
Qed.

Lemma new_session_upload_witness :
  (∃ s st',
     get_session MoreSessions.cfg_b Samples.env 10 "u2" Samples.man_long
     = (Ret (s, true), st')
     ∧ messages s
       = [ {| role := "system"; content := "persona"; timestamp := None |};
           {| role := "system"; content := "text"; timestamp := None |} ]
     ∧ sessions st' = <["u2" := s]> (sessions Samples.man_long)
     ∧ saved st' = saved Samples.man_long
     ∧ (KimiCacheMan.messages <$> KimiCacheMan.db (cache_man st') !! "h3")
       = Some (Some [ {| KimiCacheMan.role := "system"; KimiCacheMan.content := "text";
                         KimiCacheMan.expired_time := None |} ]))
  ∧ get_session MoreSessions.cfg_b Samples.env_down 10 "u2" Samples.man_long
    = (Raise ApiError, Samples.man_long).
Proof.
  split.
  - apply (new_session_upload MoreSessions.cfg_b Samples.env 10 "u2" "h3"
             Samples.man_long); reflexivity.
  - apply (new_session_upload MoreSessions.cfg_b Samples.env_down 10 "u2" "h3"
             Samples.man_long); reflexivity.
Defined.

Lemma add_message_quiet cfg env now uid r c s (st : SessionMan) :
  quiet now st → sessions st !! uid = Some s →
  add_message cfg env now uid r c st
  = match KimiCacheMan.snapshot_error env (user_id s) with
    | None =>
      (Ret tt,
       set_saved (insert (user_id s) (session_add_message now r c s))
         (set_sessions (insert uid (session_add_message now r c s)) st))
    | Some e =>
      (Raise e, set_sessions (insert uid (session_add_message now r c s)) st)
    end.
Proof.
  intros Hq Hs. unfold add_message, bind.
  rewrite get_session_quiet by done. rewrite Hs.
  unfold modify, _save_session. cbn [fst session_add_message user_id].
  by destruct (KimiCacheMan.snapshot_error env (user_id s)).
Qed.



(** X26.  [set_context] followed by [get_context]: the value just set is read
    back, whether or not the user had a session before, and the call of
    [get_context] changes nothing. *)
Theorem context_round_trip (cfg : Config) (env env' : KimiCacheMan.Env) (now : Q)
    (uid key value : string) (st st' : SessionMan) :
  KimiSessionContext.set_context cfg env now uid key value st = (Ret tt, st') →
  KimiSessionContext.get_context cfg env' now uid key st' = (Ret (Some value), st')
  ∧ ∃ s, sessions st' !! uid = Some s ∧ saved st' !! user_id s = Some s
         ∧ context s !! key = Some value.
Proof.
  unfold KimiSessionContext.set_context, KimiSessionContext.get_context, bind.
  destruct (get_session_settled cfg env now uid st)
    as [(st0 & Hq & -> & _)|(e & st1 & -> & _)]; [|done].
  destruct (get_session cfg env now uid st0) as [[[s b]|e|] st1] eqn:Hget; [|done|done].
  destruct (get_session_quiet_post cfg env now uid st0 st1 s b Hq Hget)
    as (Hs & Hq1 & _).
  unfold modify, _save_session. cbn [fst KimiSessionContext.put_context user_id].
  destruct (KimiCacheMan.snapshot_error env (user_id s)); [done|].
  intros [= <-].
  set (s' := KimiSessionContext.put_context key value s).
  rewrite get_session_quiet by done. simpl. rewrite lookup_insert_eq. simpl.
  split.
  - by rewrite lookup_insert_eq.
  - exists s'. split; [done|]. split; apply lookup_insert_eq.
Qed.

Lemma context_round_trip_witness :
  KimiSessionContext.get_context Samples.cfg Samples.env_down 10 "u1" "lang"
    (KimiSessionContext.set_context Samples.cfg Samples.env 10 "u1" "lang" "zh"
       Samples.man_long).2
  = (Ret (Some "zh"),
     (KimiSessionContext.set_context Samples.cfg Samples.env 10 "u1" "lang" "zh"
        Samples.man_long).2).
Proof.
  apply (context_round_trip Samples.cfg Samples.env Samples.env_down 10 "u1" "lang" "zh"
           Samples.man_long).
  vm_compute. reflexivity.
Defined.

(** X27.  [proc_knowledge_chat] for a user who has a session, stored under
    the [user_id] it carries, at a time when no cleanup is due.  When the
    completion answers and the snapshot file of the user can be written,
    the text of the user and the reply are appended to the session, in this
    order and both with the time of the call, the snapshot is written, and
    the reply is returned.  When the completion answers but the snapshot
    file cannot be written, the failure text is returned in place of the
    reply, and the session in the table has the text of the user appended;
    no snapshot changes.  When the completion raises, the failure text is
    returned and the manager is as before: the text of the user is not
    recorded.  No call raises. *)
Theorem chat_records_exchange (cfg : Config) (env : KimiCacheMan.Env)
    (complete : list Message → option string) (now : Q) (uid content : string)
    (s : Session) (st : SessionMan) :
  quiet now st → sessions st !! uid = Some s → user_id s = uid →
  (∀ e, (KimiFileContext.proc_knowledge_chat cfg env complete now uid content st).1
        ≠ Raise e)
  ∧ match complete (messages s
                    ++ [ {| role := "user"; content := content; timestamp := None |} ]) with
    | Some reply =>
      match KimiCacheMan.snapshot_error env uid with
      | None =>
        ∃ s' st',
          KimiFileContext.proc_knowledge_chat cfg env complete now uid content st
          = (Ret reply, st')
          ∧ messages s'
            = messages s
              ++ [ {| role := "user"; content := content; timestamp := Some now |};
                   {| role := "assistant"; content := reply; timestamp := Some now |} ]
          ∧ sessions st' !! uid = Some s' ∧ saved st' !! uid = Some s'
          ∧ cache_man st' = cache_man st
      | Some _ =>
        ∃ s' st',
          KimiFileContext.proc_knowledge_chat cfg env complete now uid content st
          = (Ret KimiFileContext.chat_failed_text, st')
          ∧ messages s'
            = messages s
              ++ [ {| role := "user"; content := content; timestamp := Some now |} ]
          ∧ sessions st' = <[uid := s']> (sessions st)
          ∧ saved st' = saved st
          ∧ cache_man st' = cache_man st
      end
    | None =>
      KimiFileContext.proc_knowledge_chat cfg env complete now uid content st
      = (Ret KimiFileContext.chat_failed_text, st)
    end.
Proof.
  intros Hq Hs Hid. split.
  { intros e. unfold KimiFileContext.proc_knowledge_chat, KimiFileContext.try_except.
    destruct (bind _ _ st) as [[reply|e'|] st']; done. }
  unfold KimiFileContext.proc_knowledge_chat, KimiFileContext.try_except, bind.
  rewrite get_session_quiet by done. rewrite Hs. cbv beta iota.
  unfold lift_outcome. cbn [fst].
  destruct (complete _) as [reply|]; [|reflexivity].
  cbv beta iota.
  rewrite (add_message_quiet cfg env now uid "user" content s st Hq Hs). rewrite Hid.
  destruct (KimiCacheMan.snapshot_error env uid) as [e|] eqn:Hw.
  { exists (session_add_message now "user" content s),
      (set_sessions (insert uid (session_add_message now "user" content s)) st).
    repeat split; done. }
  set (s1 := session_add_message now "user" content s).
  set (st1 := set_saved _ _).
  assert (Hq1 : quiet now st1) by done.
  assert (Hs1 : sessions st1 !! uid = Some s1) by apply lookup_insert_eq.
  cbv beta iota.
  rewrite (add_message_quiet cfg env now uid "assistant" reply s1 st1 Hq1 Hs1).
  cbn [s1 session_add_message user_id]. rewrite Hid, Hw.
  cbv beta iota. unfold ret.
  exists (session_add_message now "assistant" reply s1). eexists.
  split; [reflexivity|]. split.
  - simpl. by rewrite <- app_assoc.
  - split; [apply lookup_insert_eq|]. split; [|done].
    simpl. apply lookup_insert_eq.
Qed.

Lemma chat_records_exchange_witness :
  ((∀ e, (KimiFileContext.proc_knowledge_chat Samples.cfg Samples.env
            MoreSessions.answers_ok 10 "u1" "hi" Samples.man_long).1 ≠ Raise e)
   ∧ ∃ s' st',
       KimiFileContext.proc_knowledge_chat Samples.cfg Samples.env
         MoreSessions.answers_ok 10 "u1" "hi" Samples.man_long = (Ret "ok", st')
       ∧ messages s'
         = messages Samples.long_session
           ++ [ {| role := "user"; content := "hi"; timestamp := Some 10%Q |};
                {| role := "assistant"; content := "ok"; timestamp := Some 10%Q |} ]
       ∧ sessions st' !! "u1" = Some s' ∧ saved st' !! "u1" = Some s'
       ∧ cache_man st' = cache_man Samples.man_long)
  ∧ ((∀ e, (KimiFileContext.proc_knowledge_chat Samples.cfg Samples.env
              MoreSessions.answers_ok 10 "x/y" "hi" MoreSessions.man_slash).1 ≠ Raise e)
     ∧ ∃ s' st',
         KimiFileContext.proc_knowledge_chat Samples.cfg Samples.env
           MoreSessions.answers_ok 10 "x/y" "hi" MoreSessions.man_slash
         = (Ret KimiFileContext.chat_failed_text, st')
         ∧ messages s'
           = messages MoreSessions.slash_session
             ++ [ {| role := "user"; content := "hi"; timestamp := Some 10%Q |} ]
         ∧ sessions st' = <["x/y" := s']> (sessions MoreSessions.man_slash)
         ∧ saved st' = saved MoreSessions.man_slash
         ∧ cache_man st' = cache_man MoreSessions.man_slash).
Proof.
  split.
  - apply (chat_records_exchange Samples.cfg Samples.env MoreSessions.answers_ok 10 "u1"
             "hi" Samples.long_session Samples.man_long); reflexivity.
  - apply (chat_records_exchange Samples.cfg Samples.env MoreSessions.answers_ok 10 "x/y"
             "hi" MoreSessions.slash_session MoreSessions.man_slash); reflexivity.
Defined.

Lemma rate_threshold (s : Session) :
  (0 ≤ cache_hit_count s)%Z → (0 ≤ cache_miss_count s)%Z →
  ∃ rate, get_cache_hit_rate s = Ret rate
    ∧ Qgtb rate (8 # 10) = bool_decide (4 * cache_miss_count s < cache_hit_count s)%Z.
Proof.
  intros Hh Hm. unfold get_cache_hit_rate.
  destruct (Z.gtb_spec (cache_hit_count s + cache_miss_count s) 0) as [Hpos|Hzero].
  - destruct (truediv_pos (cache_hit_count s) _ Hpos) as [-> Heq].
    eexists. split; [reflexivity|].
    remember (cache_hit_count s + cache_miss_count s)%Z as t.
    destruct t as [|p|p]; try lia.
    unfold Qgtb. case_bool_decide as Hd.
    + rewrite negb_true_iff, <- not_true_iff_false, Qle_bool_iff, Heq.
      unfold Qle. simpl. lia.
    + rewrite negb_false_iff, Qle_bool_iff, Heq. unfold Qle. simpl. lia.
  - eexists. split; [reflexivity|]. rewrite bool_decide_eq_false_2 by lia. done.
Qed.

(** X28.  The feedback of the hit rate on a hit, at a time when no cleanup is
    due, for a user who has a session with counters that are not negative,
    and a file whose record has live messages, with the lock of the cache
    free and a requested lifetime [secs] for which [now + 2 * secs] fits the
    64 bits of the column: the hit is counted in the table, and the expiry
    of the record is moved to twice the requested lifetime from now exactly
    when the hits, this one included, are more than four times the misses;
    otherwise the record is not touched.  No snapshot is written.  The call
    then ends in [AttributeError]. *)
Theorem hit_feedback (cfg : Config) (env : KimiCacheMan.Env) (now : Q)
    (uid path h : string) (secs : Z) (r : KimiCacheMan.Row) (s : Session)
    (st : SessionMan) :
  quiet now st → sessions st !! uid = Some s →
  (0 ≤ cache_hit_count s)%Z → (0 ≤ cache_miss_count s)%Z →
  KimiCacheMan.lock_held (cache_man st) = false →
  KimiCacheMan.file_digest env path = Some h →
  KimiCacheMan.db (cache_man st) !! h = Some r →
  KimiCacheMan._deserialize_messages (py_int now) (KimiCacheMan.messages r) ≠ [] →
  KimiCacheMan.fits_int64 (py_int now + secs * 2) = true →
  ∃ st',
    add_temp_knowledge cfg env now uid path (Some secs) st = (Raise AttributeError, st')
    ∧ sessions st' = <[uid := bump_hit s]> (sessions st)
    ∧ saved st' = saved st
    ∧ KimiCacheMan.db (cache_man st') !! h
      = Some (if bool_decide (4 * cache_miss_count s < cache_hit_count s + 1)%Z
              then KimiCacheMan.update_expiry (py_int now + secs * 2) (py_int now) r
              else r)
    ∧ ∀ h', h' ≠ h →
        KimiCacheMan.db (cache_man st') !! h' = KimiCacheMan.db (cache_man st) !! h'.
Proof.
  intros Hq Hs Hh Hm Hl Hd Hr Hlive Hfit.
  unfold add_temp_knowledge, bind.
  rewrite get_session_quiet by done. rewrite Hs. cbv beta iota. cbn [fst].
  unfold lift_cache at 1.
  rewrite (get_cache_found env (py_int now) path h r (cache_man st) Hl Hd Hr).
  cbv beta iota.
  assert (Htruthy : truthy_result (KimiCacheMan.GMessages
            (KimiCacheMan._deserialize_messages (py_int now) (KimiCacheMan.messages r)))
          = true).
  { simpl. by destruct (KimiCacheMan._deserialize_messages _ _). }
  rewrite Htruthy. unfold modify. cbv beta iota.
  destruct (rate_threshold (bump_hit s)) as (rate & Hrate & Hgt); simpl; [lia..|].
  unfold lift_outcome at 1. rewrite Hrate. cbv beta iota. rewrite Hgt. simpl in Hgt |- *.
  case_bool_decide.
  - unfold lift_cache.  simpl.
    rewrite (refresh_cache_unlocked env (py_int now) (secs * 2) path h) by done.
    rewrite Hr, Hfit. simpl. eexists. split; [reflexivity|]. simpl.
    split; [done|]. split; [done|]. split; [apply lookup_insert_eq|].
    intros h' Hne. by apply lookup_insert_ne.
  - simpl. eexists. split; [reflexivity|]. simpl. done.
Qed.

Lemma hit_feedback_witness :
  ∃ st',
    add_temp_knowledge Samples.cfg Samples.env 10 "u1" "a.txt" (Some 3600%Z)
      Samples.man_long = (Raise AttributeError, st')
    ∧ sessions st' = <["u1" := bump_hit Samples.long_session]> (sessions Samples.man_long)
    ∧ saved st' = saved Samples.man_long
    ∧ KimiCacheMan.db (cache_man st') !! "h1"
      = Some (if bool_decide (4 * cache_miss_count Samples.long_session
                              < cache_hit_count Samples.long_session + 1)%Z
              then KimiCacheMan.update_expiry (py_int 10 + 3600 * 2) (py_int 10)
                     Samples.row_a
              else Samples.row_a)
    ∧ ∀ h', h' ≠ "h1" →
        KimiCacheMan.db (cache_man st') !! h'
        = KimiCacheMan.db (cache_man Samples.man_long) !! h'.
Proof.
  apply (hit_feedback Samples.cfg Samples.env 10 "u1" "a.txt" "h1" 3600 Samples.row_a
           Samples.long_session Samples.man_long);
    [reflexivity | reflexivity | simpl; lia | simpl; lia | reflexivity | reflexivity
    | reflexivity | vm_compute; discriminate | reflexivity].
Defined.

Lemma get_session_keyed cfg env now uid (st : SessionMan) :
  keyed st →
  keyed (get_session cfg env now uid st).2
  ∧ ∀ s b, (get_session cfg env now uid st).1 = Ret (s, b) →
           sessions (get_session cfg env now uid st).2 !! uid = Some s ∧ user_id s = uid.
Proof.
  intros Hkey.
  destruct (get_session_settled cfg env now uid st)
    as [(st0 & Hq & -> & Hkey0)|(e & st1 & -> & Hkey1)];
    [|split; [by apply Hkey1 | done]].
  specialize (Hkey0 Hkey).
  destruct (get_session cfg env now uid st0) as [[[s b]|e|] st1] eqn:Hget.
  - destruct (get_session_quiet_post cfg env now uid st0 st1 s b Hq Hget)
      as (Hs & _ & _ & Hss & _ & Hfresh).
    assert (Hid : user_id s = uid).
    { destruct b.
      - destruct (Hfresh eq_refl) as (k & ->). done.
      - rewrite Hss in Hs. by apply Hkey0. }
    simpl. split.
    + destruct b; [by eapply keyed_insert | by eapply keyed_sessions].
    + by intros ? ? [= <- <-].
  - simpl. split; [|done]. rewrite get_session_quiet in Hget by done.
    destruct (sessions st0 !! uid); [done|].
    destruct (KimiCacheMan.get_cache _ _ _ _) as [[cm|e'|] c]; [| |done].
    + destruct cm as [| |text]; [done|done|].
      destruct (String.eqb text ""); [done|]. injection Hget as _ <-.
      by eapply keyed_sessions.
    + injection Hget as _ <-. by eapply keyed_sessions.
  - simpl. split; [|done]. rewrite get_session_quiet in Hget by done.
    destruct (sessions st0 !! uid); [done|].
    destruct (KimiCacheMan.get_cache _ _ _ _) as [[cm|e'|] c]; [|done|].
    + destruct cm as [| |text]; [done|done|]. by destruct (String.eqb text "").
    + injection Hget as <-. by eapply keyed_sessions.
Qed.

(** X29.  The table keeps every session under its own [user_id]: the cleanup
    pass, [get_session], [add_message], [set_context] and
    [add_temp_knowledge] leave it so, however they end. *)
Theorem sessions_stay_keyed (cfg : Config) (env : KimiCacheMan.Env) (now : Q)
    (uid a b : string) (expire : option Z) (idle_seconds max_messages : Z)
    (st : SessionMan) :
  keyed st →
  keyed (clear_expired_sessions env now idle_seconds max_messages st).2
  ∧ keyed (get_session cfg env now uid st).2
  ∧ keyed (add_message cfg env now uid a b st).2
  ∧ keyed (KimiSessionContext.set_context cfg env now uid a b st).2
  ∧ keyed (add_temp_knowledge cfg env now uid a expire st).2.
Proof.
  intros Hkey.
  destruct (get_session_keyed cfg env now uid st Hkey) as [Hget Hret].
  split; [|split; [done|split; [|split]]].
  - by apply clear_expired_sessions_keyed.
  - unfold add_message, bind.
    destruct (get_session cfg env now uid st) as [[[s f]|e|] st1]; [|done|done].
    destruct (Hret s f eq_refl) as [_ Hid]. unfold modify, _save_session.
    cbn [fst snd] in *.
    destruct (KimiCacheMan.snapshot_error env _); simpl;
      eapply (keyed_insert uid (session_add_message now a b s) st1); done.
  - unfold KimiSessionContext.set_context, bind.
    destruct (get_session cfg env now uid st) as [[[s f]|e|] st1]; [|done|done].
    destruct (Hret s f eq_refl) as [_ Hid]. unfold modify, _save_session.
    cbn [fst snd] in *.
    destruct (KimiCacheMan.snapshot_error env _); simpl;
      eapply (keyed_insert uid (KimiSessionContext.put_context a b s) st1); done.
  - unfold add_temp_knowledge, bind.
    destruct (get_session cfg env now uid st) as [[[s f]|e|] st1]; [|done|done].
    destruct (Hret s f eq_refl) as [_ Hid]. simpl in *.
    unfold lift_cache at 1.
    destruct (KimiCacheMan.get_cache _ _ _ _) as [[cache|e|] c];
      [|by eapply keyed_sessions|by eapply keyed_sessions].
    destruct (truthy_result cache).
    + unfold modify, lift_outcome at 1. simpl.
      destruct (get_cache_hit_rate (bump_hit s)) as [rate|e|];
        [|by eapply (keyed_insert uid (bump_hit s) st1)
         |by eapply (keyed_insert uid (bump_hit s) st1)].
      destruct (Qgtb rate (8 # 10)).
      * destruct expire as [secs|]; [|by eapply (keyed_insert uid (bump_hit s) st1)].
        unfold lift_cache. simpl.
        destruct (KimiCacheMan.refresh_cache _ _ _ _ _) as [[?|?|] ?]; simpl;
          try (by eapply (keyed_insert uid (bump_hit s) st1));
          destruct cache; by eapply (keyed_insert uid (bump_hit s) st1).
      * simpl. destruct cache; by eapply (keyed_insert uid (bump_hit s) st1).
    + unfold modify, lift_cache. simpl.
      by eapply (keyed_insert uid (bump_miss s) st1).
Qed.

Lemma sessions_stay_keyed_witness :
  keyed (clear_expired_sessions Samples.env 10 100 5 Samples.man_long).2
  ∧ keyed (get_session Samples.cfg Samples.env 10 "u2" Samples.man_long).2
  ∧ keyed (add_message Samples.cfg Samples.env 10 "u2" "user" "hi" Samples.man_long).2
  ∧ keyed (KimiSessionContext.set_context Samples.cfg Samples.env 10 "u2" "user" "hi"
             Samples.man_long).2
  ∧ keyed (add_temp_knowledge Samples.cfg Samples.env 10 "u2" "user" (Some 60%Z)
             Samples.man_long).2.
Proof.
  apply (sessions_stay_keyed Samples.cfg Samples.env 10 "u2" "user" "hi" (Some 60%Z)
           100 5 Samples.man_long).
  exact keyed_man_long.
Defined.

End session_more.
